(** * ssb-bfe: the binary field encoding codec of [index.js]

    A shallow embedding of [encode] and [decode] and of the helpers
    they are built from, followed by the properties of the codec.

    Conventions of the embedding.
    - A JavaScript value is a term of [value].  An array is the list of
      its indices, [None] for a hole of a sparse array.  An object is a
      plain object: its prototype is [Object.prototype] and it is given
      by the list of its own enumerable properties in [for ... in]
      order; the key ["__proto__"] in that list is an own property, as
      [JSON.parse] creates it.
    - A [Buffer] is a list of bytes, a string a [string].
    - A [throw] is the [Throw] result; the constructors of [error] name
      the thrown messages.  A call that returns an object whose
      prototype is no longer [Object.prototype] has the result
      [Exotic]: such objects are not terms of [value].
    - Node's codecs ([Buffer.from(s, 'utf8')], [buf.toString('base64')],
      ...), the registry table [bfe.json] and the helpers of [util.js]
      are parameters of the development. *)

From Stdlib Require Import List String Ascii Strings.Byte ZArith NArith Bool Arith Lia.
Import ListNotations.

Local Open Scope string_scope.
Local Open Scope list_scope.

(** ** Values *)

#[warnings="-register-all"]
Inductive value : Type :=
| VUndefined
| VNull
| VBoolean (b : bool)
| VInteger (n : Z)                       (* Number.isInteger *)
| VString (s : string)
| VBuffer (d : list byte)                (* Buffer.isBuffer *)
| VArray (xs : list (option value))      (* None: a hole *)
| VObject (kvs : list (string * value))
| VSymbol                                (* typeof input === 'symbol' *)
| VOther.                                (* a number that is no integer, a bigint, a function *)

(** A property of the element at an index, true of a hole. *)
Inductive present {A} (P : A -> Prop) : option A -> Prop :=
| present_hole : present P None
| present_element x : P x -> present P (Some x).

(** Two arrays index by index: a hole faces a hole, an element faces an
    element related to it. *)
Definition holes_or {A B} (R : A -> B -> Prop)
    (o : option A) (o' : option B) : Prop :=
  match o, o' with
  | None, None => True
  | Some x, Some y => R x y
  | _, _ => False
  end.

(** Induction over nested values: the elements of an array and the
    properties of an object come with their induction hypotheses. *)
Section ValueInduction.
Variable P : value -> Prop.
Hypothesis P_undefined : P VUndefined.
Hypothesis P_null : P VNull.
Hypothesis P_boolean : forall b, P (VBoolean b).
Hypothesis P_integer : forall n, P (VInteger n).
Hypothesis P_string : forall s, P (VString s).
Hypothesis P_buffer : forall d, P (VBuffer d).
Hypothesis P_array : forall xs, Forall (present P) xs -> P (VArray xs).
Hypothesis P_object :
  forall kvs, Forall (fun kv => P (snd kv)) kvs -> P (VObject kvs).
Hypothesis P_symbol : P VSymbol.
Hypothesis P_other : P VOther.

Fixpoint value_nested_ind (v : value) : P v :=
  match v with
  | VUndefined => P_undefined
  | VNull => P_null
  | VBoolean b => P_boolean b
  | VInteger n => P_integer n
  | VString s => P_string s
  | VBuffer d => P_buffer d
  | VArray xs =>
      P_array xs
        ((fix elements (l : list (option value)) : Forall (present P) l :=
            match l with
            | [] => Forall_nil _
            | o :: r =>
                Forall_cons o
                  (match o return present P o with
                   | Some x => present_element P x (value_nested_ind x)
                   | None => present_hole P
                   end)
                  (elements r)
            end) xs)
  | VObject kvs =>
      P_object kvs
        ((fix properties (l : list (string * value))
            : Forall (fun kv => P (snd kv)) l :=
            match l with
            | [] => Forall_nil _
            | kv :: r =>
                Forall_cons kv (value_nested_ind (snd kv)) (properties r)
            end) kvs)
  | VSymbol => P_symbol
  | VOther => P_other
  end.
End ValueInduction.

(** ** Errors and results *)

Inductive error : Type :=
| UnknownFormat (type : string)          (* `Unknown ${type.type} format` *)
| UnencodableValue                       (* 'cannot encode input ' + input *)
| MalformedTag                           (* 'Buffer is missing first two type&format fields: ' *)
| InvalidBoolean                         (* 'boolean BFE must be 3 bytes, was ' and 'invalid boolean BFE' *)
| NoDecoder (type format : string)       (* `no decoder defined yet for type: ..., format: ...` *)
| UnknownTag                             (* 'Unknown type/ format' *)
| UndecodableValue                       (* "don't know how to decode: " + input *)
| TypeError.                             (* the TypeError of [string + input] for a symbol *)

(** The outcome of a call: a value, a thrown error, or [Exotic] when
    the call returns, without throwing, a value that holds an object
    whose prototype was replaced. *)
Inductive result (A : Type) : Type :=
| Ok (a : A)
| Throw (e : error)
| Exotic.
Arguments Ok {A} a.
Arguments Throw {A} e.
Arguments Exotic {A}.

(** Sequencing: a thrown error ends the computation; the continuations
    of the loops below only wrap what came before and cannot throw, so
    an [Exotic] outcome stays [Exotic]. *)
Definition bind {A B} (r : result A) (k : A -> result B) : result B :=
  match r with
  | Ok a => k a
  | Throw e => Throw e
  | Exotic => Exotic
  end.

Notation "x <- r ;; k" := (bind r (fun x => k))
  (at level 61, r at next level, right associativity).

(** The rest of a loop once its result holds an object with a replaced
    prototype: the loop still throws what the rest throws, and nothing
    else; [index.js] is not in strict mode, so an assignment that the
    new prototype refuses is ignored. *)
Definition after_exotic {A B} (r : result A) : result B :=
  match r with
  | Throw e => Throw e
  | _ => Exotic
  end.

(** The call does not throw. *)
Definition returns {A} (r : result A) : Prop :=
  match r with
  | Throw _ => False
  | _ => True
  end.

(** ** The decorated registry *)

(** A format and a type of the table after [decorateBFE]: the code is a
    one-byte Buffer.  [suffix] and [sigil] are optional properties. *)
Record BFEFormat : Type := {
  f_format : string;
  f_code : byte;
  f_suffix : option string
}.

Record BFEType : Type := {
  t_type : string;
  t_code : byte;
  t_sigil : option string;
  t_formats : list BFEFormat
}.

(** JavaScript truthiness of an optional string property: [undefined]
    and the empty string are falsy. *)
Definition truthy (o : option string) : bool :=
  match o with
  | Some (String _ _) => true
  | _ => false
  end.

(** [o || ''] *)
Definition or_empty (o : option string) : string :=
  match o with
  | Some s => s
  | None => ""
  end.

(** ** Strings and Buffers *)

(** [s.slice(from)], for [0 <= from]. *)
Definition string_slice (s : string) (from : nat) : string :=
  substring from (String.length s - from) s.

(** [s.slice(0, -k)], for [0 < k]. *)
Definition string_slice_end (s : string) (k : nat) : string :=
  substring 0 (String.length s - k) s.

(** [buf.slice(from, to)], for [0 <= from <= to]. *)
Definition slice (d : list byte) (from to : nat) : list byte :=
  firstn (to - from) (skipn from d).

(** [buf.slice(from)] *)
Definition slice_from (d : list byte) (from : nat) : list byte :=
  skipn from d.

(** [a.equals(b)] *)
Fixpoint equals (a b : list byte) : bool :=
  match a, b with
  | [], [] => true
  | x :: a', y :: b' => Byte.eqb x y && equals a' b'
  | _, _ => false
  end.

(** A Buffer has [length] and no property named [size]: reading
    [input.size] gives [undefined]. *)
Definition size (input : list byte) : option nat := None.

(** [x > n] where [x] may be [undefined]: the comparison with
    [undefined] is false. *)
Definition gt (x : option nat) (n : nat) : bool :=
  match x with
  | Some k => Nat.ltb n k
  | None => false
  end.

(** What the setter of [Object.prototype.__proto__] does with a value:
    an object or null becomes the prototype, anything else is ignored. *)
Definition sets_prototype (y : value) : bool :=
  match y with
  | VNull | VBuffer _ | VArray _ | VObject _ => true
  | _ => false
  end.

Section BFE.

(** *** Parameters *)

(** [TYPES = decorateBFE(definitions)] *)
Variable TYPES : list BFEType.

(** [NAMED_TYPES['generic']] and its formats ['UTF8 string'],
    ['boolean'] and ['nil'], the entries [toTF] reads. *)
Variable generic : BFEType.
Variable UTF8_string : BFEFormat.
Variable boolean : BFEFormat.
Variable nil_format : BFEFormat.

(** [findClassicTypeFormat(input, TYPES)] of [util.js]; the object
    [{ type, format }] it returns is the pair of the two properties,
    [None] for [undefined]. *)
Variable findClassicTypeFormat :
  string -> list BFEType -> option BFEType * option BFEFormat.

(** Node: [Buffer.from(s, 'utf8')], [buf.toString('utf8')],
    [Buffer.from(s, 'base64')], [buf.toString('base64')]. *)
Variable utf8_encode : string -> list byte.
Variable utf8_decode : list byte -> string.
Variable base64_decode : string -> list byte.
Variable base64_encode : list byte -> string.

(** *** Tags *)

Definition toTF (type : BFEType) (format : BFEFormat) : list byte :=
  [t_code type; f_code format].

Definition STRING_TF : list byte := toTF generic UTF8_string.
Definition NIL_TF : list byte := toTF generic nil_format.
Definition BOOL_TF : list byte := toTF generic boolean.
Definition BOOL_TRUE : list byte := [x01].
Definition BOOL_FALSE : list byte := [x00].

(** *** encoder *)

Definition encoder_boolean (input : bool) : list byte :=
  let d := if input then BOOL_TRUE else BOOL_FALSE in
  BOOL_TF ++ d.

(** The characters [encoder.sigilSuffix] hands to the base64 decoder. *)
Definition sigilSuffix_data
    (input : string) (type : BFEType) (format : BFEFormat) : string :=
  let data := input in
  let data := if truthy (t_sigil type) then string_slice data 1 else data in
  let data :=
    if truthy (f_suffix format)
    then string_slice_end data (String.length (or_empty (f_suffix format)))
    else data in
  data.

Definition encoder_sigilSuffix
    (input : string) (type : BFEType) (format : BFEFormat) : list byte :=
  [t_code type] ++ [f_code format]
    ++ base64_decode (sigilSuffix_data input type format).

Definition encoder_string (input : string) : list byte :=
  STRING_TF ++ utf8_encode input.

Definition encoder_nil : list byte := NIL_TF.

(** *** encode *)

Definition is_undefined (v : value) : bool :=
  match v with
  | VUndefined => true
  | _ => false
  end.

(** [output[key] = y] on the fresh object [output], in a loop that goes
    on with [rest].  For the key ["__proto__"] the assignment reaches
    the setter of [Object.prototype]: it replaces the prototype of
    [output] when [y] is an object or null, and does nothing
    otherwise; no own property is created.  For any other key the
    property is added. *)
Definition assign (key : string) (y : value)
    (rest : result (list (string * value)))
  : result (list (string * value)) :=
  if String.eqb key "__proto__"
  then (if sets_prototype y then after_exotic rest else rest)
  else output <- rest ;; Ok ((key, y) :: output).

Fixpoint encode (input : value) : result value :=
  match input with
  | VUndefined | VBuffer _ | VInteger _ => Ok input
  | VString s =>
      match findClassicTypeFormat s TYPES with
      | (Some type, Some format) =>
          Ok (VBuffer (encoder_sigilSuffix s type format))
      | (Some type, None) => Throw (UnknownFormat (t_type type))
      | (None, _) => Ok (VBuffer (encoder_string s))
      end
  | VBoolean b => Ok (VBuffer (encoder_boolean b))
  | VNull => Ok (VBuffer encoder_nil)
  | VArray xs =>
      ys <- (fix map_encode (l : list (option value))
               : result (list (option value)) :=
               match l with
               | [] => Ok []
               | None :: r => ys <- map_encode r ;; Ok (None :: ys)
               | Some x :: r =>
                   match encode x with
                   | Ok y =>
                       ys <- map_encode r ;;
                       Ok (Some (if is_undefined y then VBuffer encoder_nil
                                 else y) :: ys)
                   | Throw e => Throw e
                   | Exotic => after_exotic (map_encode r)
                   end
               end) xs ;;
      Ok (VArray ys)
  | VObject kvs =>
      output <- (fix each_key (l : list (string * value))
                   : result (list (string * value)) :=
                   match l with
                   | [] => Ok []
                   | (key, x) :: r =>
                       match encode x with
                       | Ok y =>
                           if is_undefined y then each_key r
                           else assign key y (each_key r)
                       | Throw e => Throw e
                       | Exotic => after_exotic (each_key r)
                       end
                   end) kvs ;;
      Ok (VObject output)
  | VSymbol => Throw TypeError
  | VOther => Throw UnencodableValue
  end.

(** The two loops of [encode], by name: [input.map] with its callback,
    which leaves the holes of a sparse array as they are, and the
    [for ... in] loop that fills [output]. *)
Definition encode_elements
  : list (option value) -> result (list (option value)) :=
  fix map_encode (l : list (option value)) : result (list (option value)) :=
    match l with
    | [] => Ok []
    | None :: r => ys <- map_encode r ;; Ok (None :: ys)
    | Some x :: r =>
        match encode x with
        | Ok y =>
            ys <- map_encode r ;;
            Ok (Some (if is_undefined y then VBuffer encoder_nil else y) :: ys)
        | Throw e => Throw e
        | Exotic => after_exotic (map_encode r)
        end
    end.

Definition encode_properties
  : list (string * value) -> result (list (string * value)) :=
  fix each_key (l : list (string * value)) : result (list (string * value)) :=
    match l with
    | [] => Ok []
    | (key, x) :: r =>
        match encode x with
        | Ok y =>
            if is_undefined y then each_key r
            else assign key y (each_key r)
        | Throw e => Throw e
        | Exotic => after_exotic (each_key r)
        end
    end.

(** *** decoder *)

Definition decoder_sigilSuffix
    (input : list byte) (type : BFEType) (format : BFEFormat) : string :=
  (or_empty (t_sigil type)
     ++ base64_encode (slice_from input 2)
     ++ or_empty (f_suffix format))%string.

Definition decoder_bool (input : list byte) : result value :=
  if gt (size input) 3 then Throw InvalidBoolean
  else if equals (slice input 2 3) BOOL_FALSE then Ok (VBoolean false)
  else if equals (slice input 2 3) BOOL_TRUE then Ok (VBoolean true)
  else Throw InvalidBoolean.

Definition decoder_string (input : list byte) : string :=
  utf8_decode (slice_from input 2).

(** *** decode *)

(** The [Buffer.isBuffer(input)] branch of [decode]. *)
Definition decode_buffer (input : list byte) : result value :=
  if Nat.ltb (List.length input) 2 then Throw MalformedTag
  else if equals input NIL_TF then Ok VNull
  else if equals (slice input 0 2) BOOL_TF then decoder_bool input
  else if equals (slice input 0 2) STRING_TF
  then Ok (VString (decoder_string input))
  else
    match find (fun type => equals [t_code type] (slice input 0 1)) TYPES with
    | Some type =>
        match find (fun format => equals [f_code format] (slice input 1 2))
                   (t_formats type) with
        | Some format =>
            if truthy (t_sigil type) || truthy (f_suffix format)
            then Ok (VString (decoder_sigilSuffix input type format))
            else Throw (NoDecoder (t_type type) (f_format format))
        | None => Throw (UnknownFormat (t_type type))
        end
    | None => Throw UnknownTag
    end.

Fixpoint decode (input : value) : result value :=
  match input with
  | VNull => Ok VNull
  | VInteger _ => Ok input
  | VBuffer d => decode_buffer d
  | VArray xs =>
      ys <- (fix map_decode (l : list (option value))
               : result (list (option value)) :=
               match l with
               | [] => Ok []
               | None :: r => ys <- map_decode r ;; Ok (None :: ys)
               | Some x :: r =>
                   match decode x with
                   | Ok y => ys <- map_decode r ;; Ok (Some y :: ys)
                   | Throw e => Throw e
                   | Exotic => after_exotic (map_decode r)
                   end
               end) xs ;;
      Ok (VArray ys)
  | VObject kvs =>
      output <- (fix each_key (l : list (string * value))
                   : result (list (string * value)) :=
                   match l with
                   | [] => Ok []
                   | (key, x) :: r =>
                       match decode x with
                       | Ok y => assign key y (each_key r)
                       | Throw e => Throw e
                       | Exotic => after_exotic (each_key r)
                       end
                   end) kvs ;;
      Ok (VObject output)
  | VSymbol => Throw TypeError
  | VUndefined | VBoolean _ | VString _ | VOther => Throw UndecodableValue
  end.

(** The two loops of [decode], by name. *)
Definition decode_elements
  : list (option value) -> result (list (option value)) :=
  fix map_decode (l : list (option value)) : result (list (option value)) :=
    match l with
    | [] => Ok []
    | None :: r => ys <- map_decode r ;; Ok (None :: ys)
    | Some x :: r =>
        match decode x with
        | Ok y => ys <- map_decode r ;; Ok (Some y :: ys)
        | Throw e => Throw e
        | Exotic => after_exotic (map_decode r)
        end
    end.

Definition decode_properties
  : list (string * value) -> result (list (string * value)) :=
  fix each_key (l : list (string * value)) : result (list (string * value)) :=
    match l with
    | [] => Ok []
    | (key, x) :: r =>
        match decode x with
        | Ok y => assign key y (each_key r)
        | Throw e => Throw e
        | Exotic => after_exotic (each_key r)
        end
    end.

(** *** What the codec assumes of its parameters *)

(** The registry invariants: type codes are unique in the table, format
    codes are unique within a type, and the named lookup of ['generic']
    and of its three formats reads entries of the table; the generic
    type has no sigil and its nil format no suffix. *)
Record registry_ok : Prop := {
  type_codes_unique : NoDup (map t_code TYPES);
  format_codes_unique :
    forall type, In type TYPES -> NoDup (map f_code (t_formats type));
  generic_registered : In generic TYPES;
  UTF8_string_registered :
    In UTF8_string (t_formats generic) /\ f_format UTF8_string = "UTF8 string";
  boolean_registered :
    In boolean (t_formats generic) /\ f_format boolean = "boolean";
  nil_registered :
    In nil_format (t_formats generic) /\ f_format nil_format = "nil";
  generic_no_sigil : truthy (t_sigil generic) = false;
  nil_no_suffix : truthy (f_suffix nil_format) = false
}.

(** Every sigil of the table is a single character, the one character
    [encoder.sigilSuffix] removes with [slice(1)]. *)
Definition sigils_one_char : Prop :=
  forall type, In type TYPES -> String.length (or_empty (t_sigil type)) <= 1.

(** A type and format reported by the matcher are entries of the table,
    and the type has a sigil. *)
Definition matcher_sound : Prop :=
  forall s type format,
    findClassicTypeFormat s TYPES = (Some type, Some format) ->
    In type TYPES /\ In format (t_formats type)
    /\ truthy (t_sigil type) = true.

(** No property of the object is an own property named ["__proto__"]. *)
Definition no_proto_key (kvs : list (string * value)) : Prop :=
  Forall (fun kv => fst kv <> "__proto__") kvs.

(** The values that survive [decode (encode v)]: integers, booleans,
    null, the strings the matcher recognizes whose payload is what the
    base64 encoder prints for the bytes it decodes to, the strings the
    matcher does not recognize that survive the UTF8 codec, and the
    arrays, sparse or not, and the objects without an own key
    ["__proto__"] of these. *)
#[warnings="-register-all"]
Inductive roundtrip_value : value -> Prop :=
| rv_integer n : roundtrip_value (VInteger n)
| rv_boolean b : roundtrip_value (VBoolean b)
| rv_null : roundtrip_value VNull
| rv_classic s type format payload :
    findClassicTypeFormat s TYPES = (Some type, Some format) ->
    s = (or_empty (t_sigil type) ++ payload ++ or_empty (f_suffix format))%string ->
    base64_encode (base64_decode payload) = payload ->
    roundtrip_value (VString s)
| rv_plain s :
    fst (findClassicTypeFormat s TYPES) = None ->
    utf8_decode (utf8_encode s) = s ->
    roundtrip_value (VString s)
| rv_array xs :
    Forall (present roundtrip_value) xs -> roundtrip_value (VArray xs)
| rv_object kvs :
    no_proto_key kvs ->
    Forall (fun kv => roundtrip_value (snd kv)) kvs ->
    roundtrip_value (VObject kvs).

(** *** Shapes of values *)

(** The values [encode] produces inside an array or an object: buffers,
    integers, and arrays and objects of these; the objects have no own
    key ["__proto__"]. *)
#[warnings="-register-all"]
Inductive encoded : value -> Prop :=
| encoded_integer n : encoded (VInteger n)
| encoded_buffer d : encoded (VBuffer d)
| encoded_array xs : Forall (present encoded) xs -> encoded (VArray xs)
| encoded_object kvs :
    no_proto_key kvs ->
    Forall (fun kv => encoded (snd kv)) kvs -> encoded (VObject kvs).

(** The values [decode] produces: null, integers, booleans, strings,
    and arrays and objects of these. *)
#[warnings="-register-all"]
Inductive decoded : value -> Prop :=
| decoded_null : decoded VNull
| decoded_integer n : decoded (VInteger n)
| decoded_boolean b : decoded (VBoolean b)
| decoded_string s : decoded (VString s)
| decoded_array xs : Forall (present decoded) xs -> decoded (VArray xs)
| decoded_object kvs :
    Forall (fun kv => decoded (snd kv)) kvs -> decoded (VObject kvs).

(** The values [encode] does not throw on: every leaf but the symbols,
    the values of another kind and the strings for which the matcher
    reports a type without a format. *)
#[warnings="-register-all"]
Inductive encodable : value -> Prop :=
| encodable_undefined : encodable VUndefined
| encodable_null : encodable VNull
| encodable_boolean b : encodable (VBoolean b)
| encodable_integer n : encodable (VInteger n)
| encodable_buffer d : encodable (VBuffer d)
| encodable_string s :
    (forall type, findClassicTypeFormat s TYPES <> (Some type, None)) ->
    encodable (VString s)
| encodable_array xs :
    Forall (present encodable) xs -> encodable (VArray xs)
| encodable_object kvs :
    Forall (fun kv => encodable (snd kv)) kvs -> encodable (VObject kvs).

(** The values of the round trip in canonical form: integers,
    booleans, null, the strings [encode] does not throw on, arrays,
    where a hole or [undefined] may stand at an index, and objects
    without an own key ["__proto__"], where [undefined] may stand as
    the value of a key. *)
#[warnings="-register-all"]
Inductive codec_value : value -> Prop :=
| cv_integer n : codec_value (VInteger n)
| cv_boolean b : codec_value (VBoolean b)
| cv_null : codec_value VNull
| cv_string s :
    (forall type, findClassicTypeFormat s TYPES <> (Some type, None)) ->
    codec_value (VString s)
| cv_array xs :
    Forall (present (fun x => x = VUndefined \/ codec_value x)) xs ->
    codec_value (VArray xs)
| cv_object kvs :
    no_proto_key kvs ->
    Forall (fun kv => snd kv = VUndefined \/ codec_value (snd kv)) kvs ->
    codec_value (VObject kvs).

(** The canonical form of a value of [codec_value], which is what a
    trip through [encode] and [decode] makes of it: a recognized string
    has its payload decoded from base64 and printed again, any other
    string goes through the UTF8 codec, an [undefined] element of an
    array becomes null, a hole stays a hole, and a key whose value is
    [undefined] is gone.  It says nothing of the other values, those
    with bytes or with an own key ["__proto__"] among them. *)
Fixpoint canonical (v : value) : value :=
  match v with
  | VString s =>
      match findClassicTypeFormat s TYPES with
      | (Some type, Some format) =>
          VString (or_empty (t_sigil type)
                   ++ base64_encode
                        (base64_decode (sigilSuffix_data s type format))
                   ++ or_empty (f_suffix format))%string
      | _ => VString (utf8_decode (utf8_encode s))
      end
  | VArray xs =>
      VArray (map (option_map
                     (fun x => if is_undefined x then VNull else canonical x))
                  xs)
  | VObject kvs =>
      VObject
        ((fix each_key (l : list (string * value)) : list (string * value) :=
            match l with
            | [] => []
            | (key, x) :: r =>
                if is_undefined x then each_key r
                else (key, canonical x) :: each_key r
            end) kvs)
  | _ => v
  end.

(** The loop of [canonical] over the keys, by name. *)
Definition canonical_properties
  : list (string * value) -> list (string * value) :=
  fix each_key (l : list (string * value)) : list (string * value) :=
    match l with
    | [] => []
    | (key, x) :: r =>
        if is_undefined x then each_key r
        else (key, canonical x) :: each_key r
    end.

End BFE.

(** ** The helpers of [util.js] *)

Module Util.

(** [s.endsWith(x)] *)
Definition endsWith (s x : string) : bool :=
  Nat.leb (String.length x) (String.length s)
  && String.eqb (substring (String.length s - String.length x)
                           (String.length x) s) x.

(** Modelled from the spec: [findClassicTypeFormat] of [util.js], which
    is not among the sources.  The types are searched in table order; a
    type matches when it declares a sigil that is a prefix of the
    string; among the formats of that type, in table order, a format
    matches when its suffix is a suffix of the string after the sigil.
    The first match wins. *)
Definition findClassicTypeFormat (input : string) (types : list BFEType)
  : option BFEType * option BFEFormat :=
  match find (fun type => truthy (t_sigil type)
                          && prefix (or_empty (t_sigil type)) input) types with
  | None => (None, None)
  | Some type =>
      let rest :=
        string_slice input (String.length (or_empty (t_sigil type))) in
      (Some type,
       find (fun format => truthy (f_suffix format)
                           && endsWith rest (or_empty (f_suffix format)))
            (t_formats type))
  end.

End Util.

(** ** Node's Buffer codecs *)

Module Node.

Definition byte_of_N (n : N) : byte :=
  match Byte.of_N (n mod 256) with
  | Some b => b
  | None => x00
  end.

Definition alphabet : string :=
  "ABCDEFGHIJKLMNOPQRSTUVWXYZabcdefghijklmnopqrstuvwxyz0123456789+/".

Definition digit (n : N) : ascii :=
  match String.get (N.to_nat n) alphabet with
  | Some c => c
  | None => "="%char
  end.

(** The value of a base64 character, of either alphabet. *)
Definition sextet (c : ascii) : option N :=
  let n := N_of_ascii c in
  (if (65 <=? n) && (n <=? 90) then Some (n - 65)
   else if (97 <=? n) && (n <=? 122) then Some (n - 71)
   else if (48 <=? n) && (n <=? 57) then Some (n + 4)
   else if (n =? 43) || (n =? 45) then Some 62
   else if (n =? 47) || (n =? 95) then Some 63
   else None)%N.

(** [buf.toString('base64')]: the standard alphabet, with padding. *)
Fixpoint base64_encode (d : list byte) : string :=
  match d with
  | [] => ""
  | [a] =>
      let n := Byte.to_N a in
      String (digit (n / 4)) (String (digit (n mod 4 * 16)) "==")
  | [a; b] =>
      let n := Byte.to_N a * 256 + Byte.to_N b in
      String (digit (n / 1024))
        (String (digit (n / 16 mod 64)) (String (digit (n mod 16 * 4)) "="))
  | a :: b :: c :: r =>
      let n := Byte.to_N a * 65536 + Byte.to_N b * 256 + Byte.to_N c in
      String (digit (n / 262144))
        (String (digit (n / 4096 mod 64))
           (String (digit (n / 64 mod 64))
              (String (digit (n mod 64)) (base64_encode r))))
  end%N.

(** The sextets of a string: characters outside the alphabets are
    skipped and the first ['='] ends the input. *)
Fixpoint sextets (s : string) : list N :=
  match s with
  | EmptyString => []
  | String c r =>
      match sextet c with
      | Some n => n :: sextets r
      | None => if Ascii.eqb c "=" then [] else sextets r
      end
  end.

Fixpoint bytes_of_sextets (l : list N) : list byte :=
  match l with
  | a :: b :: c :: d :: r =>
      let n := a * 262144 + b * 4096 + c * 64 + d in
      byte_of_N (n / 65536) :: byte_of_N (n / 256) :: byte_of_N n
        :: bytes_of_sextets r
  | [a; b; c] =>
      let n := a * 4096 + b * 64 + c in
      [byte_of_N (n / 1024); byte_of_N (n / 4)]
  | [a; b] => [byte_of_N ((a * 64 + b) / 16)]
  | _ => []
  end%N.

(** [Buffer.from(s, 'base64')] *)
Definition base64_decode (s : string) : list byte :=
  bytes_of_sextets (sextets s).

(** [Buffer.from(s, 'utf8')] and [buf.toString('utf8')] on 7-bit text,
    where a character is its own byte. *)
Definition utf8_encode (s : string) : list byte := list_byte_of_string s.
Definition utf8_decode (d : list byte) : string := string_of_list_byte d.

End Node.

(** ** A registry *)

Module Sample.

(** Modelled from the spec: the table [bfe.json] is not among the
    sources.  These are the entries the spec and the test name: the
    message type, code 1, sigil ["%"], with the formats of code 0,
    suffix [".sha256"], and of code 4, suffix [".bbmsg-v1"]; and the
    generic type with its formats ['UTF8 string'], ['boolean'] and
    ['nil'], under the codes of the BFE table (6; 0, 1, 2). *)
Definition classic : BFEFormat :=
  {| f_format := "classic"; f_code := x00; f_suffix := Some ".sha256" |}.
Definition bendybutt : BFEFormat :=
  {| f_format := "bendybutt-v1"; f_code := x04; f_suffix := Some ".bbmsg-v1" |}.
Definition msg : BFEType :=
  {| t_type := "msg"; t_code := x01; t_sigil := Some "%";
     t_formats := [classic; bendybutt] |}.

Definition UTF8_string : BFEFormat :=
  {| f_format := "UTF8 string"; f_code := x00; f_suffix := None |}.
Definition boolean : BFEFormat :=
  {| f_format := "boolean"; f_code := x01; f_suffix := None |}.
Definition nil_format : BFEFormat :=
  {| f_format := "nil"; f_code := x02; f_suffix := None |}.
Definition generic : BFEType :=
  {| t_type := "generic"; t_code := x06; t_sigil := None;
     t_formats := [UTF8_string; boolean; nil_format] |}.

Definition TYPES : list BFEType := [msg; generic].

(** The two message identifiers of the test [01-msg.js]. *)
Definition classic_id : string :=
  "%HZVnEzm0NgoSVfG0Hx4gMFbMMHhFvhJsG2zK/pijYII=.sha256".
Definition bendybutt_id : string :=
  "%HZVnEzm0NgoSVfG0Hx4gMFbMMHhFvhJsG2zK/pijYII=.bbmsg-v1".
Definition payload_id : string :=
  "HZVnEzm0NgoSVfG0Hx4gMFbMMHhFvhJsG2zK/pijYII=".

Definition encode : value -> result value :=
  encode TYPES generic UTF8_string boolean nil_format
    Util.findClassicTypeFormat Node.utf8_encode Node.base64_decode.

Definition decode : value -> result value :=
  decode TYPES generic UTF8_string boolean nil_format
    Node.utf8_decode Node.base64_encode.

Definition canonical : value -> value :=
  canonical TYPES Util.findClassicTypeFormat Node.utf8_encode
    Node.utf8_decode Node.base64_decode Node.base64_encode.

End Sample.

(** ** A registry with a sigil of two characters *)

Module TwoChar.

(** A table that differs from the sample in the sigil of its one type
    with a sigil, ["ab"], with one format of suffix [".x"]. *)
Definition x_format : BFEFormat :=
  {| f_format := "x"; f_code := x00; f_suffix := Some ".x" |}.
Definition ab : BFEType :=
  {| t_type := "ab"; t_code := x07; t_sigil := Some "ab";
     t_formats := [x_format] |}.

Definition TYPES : list BFEType := [ab; Sample.generic].

Definition encode : value -> result value :=
  encode TYPES Sample.generic Sample.UTF8_string Sample.boolean
    Sample.nil_format Util.findClassicTypeFormat Node.utf8_encode
    Node.base64_decode.

End TwoChar.



(** * Properties *)

(** ** Buffers and strings *)

Lemma equals_eq (a b : list byte) : equals a b = true <-> a = b.
Proof.
  revert b; induction a as [|x a IH]; intros [|y b]; simpl;
    try (split; [discriminate | discriminate]); try tauto.
  rewrite andb_true_iff, IH. split.
  - intros [Hxy ->]. apply Byte.byte_dec_bl in Hxy. now subst.
  - intros [= -> ->]. split; [now apply Byte.byte_dec_lb | reflexivity].
Qed.

Lemma equals_refl (a : list byte) : equals a a = true.
Proof. now apply equals_eq. Qed.

Lemma equals_neq (a b : list byte) : a <> b -> equals a b = false.
Proof.
  intros Hne. destruct (equals a b) eqn:E; [|reflexivity].
  apply equals_eq in E. contradiction.
Qed.

Lemma substring_all (s : string) : substring 0 (String.length s) s = s.
Proof. induction s as [|c s IH]; simpl; [reflexivity | now rewrite IH]. Qed.

Lemma length_app (s x : string) :
  String.length (s ++ x) = String.length s + String.length x.
Proof. induction s as [|c s IH]; simpl; [reflexivity | now rewrite IH]. Qed.

Lemma substring_app_l (s x : string) :
  substring 0 (String.length s) (s ++ x) = s.
Proof.
  induction s as [|c s IH]; simpl.
  - now destruct x.
  - now rewrite IH.
Qed.

Lemma app_empty_r (s : string) : (s ++ "")%string = s.
Proof. induction s as [|c s IH]; simpl; [reflexivity | now rewrite IH]. Qed.

Lemma string_slice_end_app (s x : string) :
  string_slice_end (s ++ x) (String.length x) = s.
Proof.
  unfold string_slice_end. rewrite length_app.
  replace (String.length s + String.length x - String.length x)
    with (String.length s) by lia.
  apply substring_app_l.
Qed.

Lemma string_slice_1 (c : ascii) (s : string) :
  string_slice (String c s) 1 = s.
Proof.
  unfold string_slice. simpl. rewrite Nat.sub_0_r. apply substring_all.
Qed.

(** ** Lookups in a table with unique codes *)

Lemma NoDup_map_eq {A B} (f : A -> B) (l : list A) (x y : A) :
  NoDup (map f l) -> In x l -> In y l -> f x = f y -> x = y.
Proof.
  induction l as [|a l IH]; simpl; [tauto|].
  intros Hnd Hx Hy Hxy. inversion Hnd as [|? ? Hnotin Hnd']; subst.
  destruct Hx as [->|Hx], Hy as [->|Hy]; auto.
  - exfalso. apply Hnotin. rewrite Hxy. now apply in_map.
  - exfalso. apply Hnotin. rewrite <- Hxy. now apply in_map.
Qed.

Lemma find_unique {A} (code : A -> byte) (l : list A) (x : A) (b : byte) :
  NoDup (map code l) -> In x l -> code x = b ->
  find (fun y => equals [code y] [b]) l = Some x.
Proof.
  intros Hnd Hin Hb.
  destruct (find (fun y => equals [code y] [b]) l) as [y|] eqn:E.
  - apply find_some in E. destruct E as [Hy E].
    apply equals_eq in E. injection E as E.
    f_equal. apply (NoDup_map_eq code l); congruence.
  - apply find_none with (x := x) in E; [|assumption].
    rewrite Hb, equals_refl in E. discriminate.
Qed.

(** ** The codec *)

Section Codec.

Variable TYPES : list BFEType.
Variable generic : BFEType.
Variables UTF8_string boolean nil_format : BFEFormat.
Variable findClassicTypeFormat :
  string -> list BFEType -> option BFEType * option BFEFormat.
Variable utf8_encode : string -> list byte.
Variable utf8_decode : list byte -> string.
Variable base64_decode : string -> list byte.
Variable base64_encode : list byte -> string.

Local Abbreviation STRING_TF := (STRING_TF generic UTF8_string).
Local Abbreviation NIL_TF := (NIL_TF generic nil_format).
Local Abbreviation BOOL_TF := (BOOL_TF generic boolean).
Local Abbreviation encode :=
  (encode TYPES generic UTF8_string boolean nil_format
     findClassicTypeFormat utf8_encode base64_decode).
Local Abbreviation encode_elements :=
  (encode_elements TYPES generic UTF8_string boolean nil_format
     findClassicTypeFormat utf8_encode base64_decode).
Local Abbreviation encode_properties :=
  (encode_properties TYPES generic UTF8_string boolean nil_format
     findClassicTypeFormat utf8_encode base64_decode).
Local Abbreviation decode_buffer :=
  (decode_buffer TYPES generic UTF8_string boolean nil_format
     utf8_decode base64_encode).
Local Abbreviation decode :=
  (decode TYPES generic UTF8_string boolean nil_format
     utf8_decode base64_encode).
Local Abbreviation decode_elements :=
  (decode_elements TYPES generic UTF8_string boolean nil_format
     utf8_decode base64_encode).
Local Abbreviation decode_properties :=
  (decode_properties TYPES generic UTF8_string boolean nil_format
     utf8_decode base64_encode).
Local Abbreviation registry_ok :=
  (registry_ok TYPES generic UTF8_string boolean nil_format).
Local Abbreviation sigils_one_char := (sigils_one_char TYPES).
Local Abbreviation matcher_sound := (matcher_sound TYPES findClassicTypeFormat).
Local Abbreviation roundtrip_value :=
  (roundtrip_value TYPES findClassicTypeFormat utf8_encode utf8_decode
     base64_decode base64_encode).

Lemma encode_array (xs : list (option value)) :
  encode (VArray xs) = (ys <- encode_elements xs ;; Ok (VArray ys)).
Proof. reflexivity. Qed.

Lemma encode_object (kvs : list (string * value)) :
  encode (VObject kvs)
  = (output <- encode_properties kvs ;; Ok (VObject output)).
Proof. reflexivity. Qed.

Lemma decode_array (xs : list (option value)) :
  decode (VArray xs) = (ys <- decode_elements xs ;; Ok (VArray ys)).
Proof. reflexivity. Qed.

Lemma decode_object (kvs : list (string * value)) :
  decode (VObject kvs)
  = (output <- decode_properties kvs ;; Ok (VObject output)).
Proof. reflexivity. Qed.

(** *** Short buffers *)

(** C6: [decode] of a buffer of fewer than two bytes, the empty buffer
    and every one-byte buffer included, throws the missing tag error. *)
Theorem decode_short_buffer (d : list byte) :
  List.length d < 2 -> decode (VBuffer d) = Throw MalformedTag.
Proof.
  intros Hlen. simpl. unfold decode_buffer.
  apply Nat.ltb_lt in Hlen. now rewrite Hlen.
Qed.

(** *** Booleans and null *)

(** C7: the encoding of a boolean is three bytes, the code of the
    generic type, the code of its boolean format, then 1 for [true]
    and 0 for [false]. *)
Theorem encode_boolean_bytes (b : bool) :
  encode (VBoolean b)
  = Ok (VBuffer [t_code generic; f_code boolean; if b then x01 else x00]).
Proof. destruct b; reflexivity. Qed.

(** C8: [encode] of null is the two bytes of the nil tag, with no
    payload, and [decode] of exactly these two bytes is null. *)
Theorem nil_tag_codec :
  encode VNull = Ok (VBuffer [t_code generic; f_code nil_format])
  /\ List.length NIL_TF = 2
  /\ decode (VBuffer NIL_TF) = Ok VNull.
Proof.
  repeat split. simpl. unfold decode_buffer.
  now rewrite equals_refl.
Qed.

(** C2, where the code departs from the claim: a buffer that starts
    with the boolean tag and carries a payload of two bytes or more is
    decoded by its first payload byte alone; the guard on the length
    reads [input.size], which a Buffer does not have, and never fires. *)
Theorem decode_boolean_longer_payload (b : byte) (rest : list byte) :
  decode (VBuffer (BOOL_TF ++ x00 :: b :: rest)) = Ok (VBoolean false)
  /\ decode (VBuffer (BOOL_TF ++ x01 :: b :: rest)) = Ok (VBoolean true).
Proof.
  split; simpl; unfold decode_buffer; simpl;
    rewrite !Byte.byte_dec_lb by reflexivity; simpl;
    rewrite ?andb_false_r; simpl;
    rewrite !Byte.byte_dec_lb by reflexivity; reflexivity.
Qed.

(** The part of C2 the code keeps: with a payload of exactly one byte,
    0 is [false], 1 is [true] and any other byte is an error. *)
Lemma decode_boolean_one_byte (b : byte) :
  decode (VBuffer (BOOL_TF ++ [b]))
  = if Byte.eqb b x00 then Ok (VBoolean false)
    else if Byte.eqb b x01 then Ok (VBoolean true)
    else Throw InvalidBoolean.
Proof.
  simpl; unfold decode_buffer; simpl.
  rewrite !Byte.byte_dec_lb by reflexivity; simpl.
  rewrite ?andb_false_r; simpl.
  rewrite !Byte.byte_dec_lb by reflexivity; simpl.
  unfold decoder_bool. simpl. rewrite !andb_true_r. reflexivity.
Qed.

(** Without a payload the result is the same error, as long as the
    boolean tag is not also the nil tag. *)
Lemma decode_boolean_no_payload :
  f_code boolean <> f_code nil_format ->
  decode (VBuffer BOOL_TF) = Throw InvalidBoolean.
Proof.
  intros Hne. simpl; unfold decode_buffer; simpl.
  rewrite !Byte.byte_dec_lb by reflexivity; simpl.
  destruct (Byte.eqb (f_code boolean) (f_code nil_format)) eqn:E.
  - apply Byte.byte_dec_bl in E. contradiction.
  - simpl. now rewrite Byte.byte_dec_lb.
Qed.

(** *** The registry lookup of [decode] *)

Lemma find_pointwise {A} (f g : A -> bool) (l : list A) :
  (forall x, f x = g x) -> find f l = find g l.
Proof.
  intros Hfg. induction l as [|a l IH]; simpl; [reflexivity|].
  now rewrite Hfg, IH.
Qed.

Lemma equals_singleton (a b : byte) : equals [a] [b] = Byte.eqb a b.
Proof. simpl. apply andb_true_r. Qed.

(** What [decode] does with a buffer of two bytes or more that passes
    the three tag tests. *)
Lemma decode_buffer_lookup (b0 b1 : byte) (payload : list byte) :
  b0 :: b1 :: payload <> NIL_TF ->
  [b0; b1] <> BOOL_TF ->
  [b0; b1] <> STRING_TF ->
  decode (VBuffer (b0 :: b1 :: payload)) =
    match find (fun type => Byte.eqb (t_code type) b0) TYPES with
    | None => Throw UnknownTag
    | Some type =>
        match find (fun format => Byte.eqb (f_code format) b1)
                   (t_formats type) with
        | None => Throw (UnknownFormat (t_type type))
        | Some format =>
            if truthy (t_sigil type) || truthy (f_suffix format)
            then Ok (VString (or_empty (t_sigil type)
                              ++ base64_encode payload
                              ++ or_empty (f_suffix format))%string)
            else Throw (NoDecoder (t_type type) (f_format format))
        end
    end.
Proof.
  intros Hnil Hbool Hstring.
  change (decode (VBuffer (b0 :: b1 :: payload)))
    with (decode_buffer (b0 :: b1 :: payload)).
  unfold decode_buffer.
  change (Nat.ltb (List.length (b0 :: b1 :: payload)) 2) with false.
  change (slice (b0 :: b1 :: payload) 0 2) with [b0; b1].
  change (slice (b0 :: b1 :: payload) 0 1) with [b0].
  change (slice (b0 :: b1 :: payload) 1 2) with [b1].
  rewrite (equals_neq _ _ Hnil), (equals_neq _ _ Hbool),
    (equals_neq _ _ Hstring).
  rewrite (find_pointwise _ (fun type => Byte.eqb (t_code type) b0))
    by (intros; apply equals_singleton).
  destruct (find _ TYPES) as [type|]; [|reflexivity].
  rewrite (find_pointwise _ (fun format => Byte.eqb (f_code format) b1))
    by (intros; apply equals_singleton).
  reflexivity.
Qed.

(** C4: a buffer of two bytes or more that is not the nil tag and does
    not start with the boolean or the string tag is decoded through the
    table: the first type whose code is byte 0, or the unknown tag
    error; the first format of that type whose code is byte 1, or the
    unknown format error; then the string sigil + base64(payload) +
    suffix when the type has a sigil or the format a suffix, and the
    missing decoder error when neither is there. *)
Theorem decode_tagged_buffer (d : list byte) :
  2 <= List.length d ->
  d <> NIL_TF ->
  firstn 2 d <> BOOL_TF ->
  firstn 2 d <> STRING_TF ->
  decode (VBuffer d) =
    match find (fun type => Byte.eqb (t_code type) (nth 0 d x00)) TYPES with
    | None => Throw UnknownTag
    | Some type =>
        match find (fun format => Byte.eqb (f_code format) (nth 1 d x00))
                   (t_formats type) with
        | None => Throw (UnknownFormat (t_type type))
        | Some format =>
            if truthy (t_sigil type) || truthy (f_suffix format)
            then Ok (VString (or_empty (t_sigil type)
                              ++ base64_encode (skipn 2 d)
                              ++ or_empty (f_suffix format))%string)
            else Throw (NoDecoder (t_type type) (f_format format))
        end
    end.
Proof.
  destruct d as [|b0 [|b1 payload]]; simpl List.length; try lia.
  intros _. apply decode_buffer_lookup.
Qed.

(** The three tags of the generic type are pairwise distinct. *)
Lemma generic_codes_distinct :
  registry_ok ->
  f_code UTF8_string <> f_code boolean
  /\ f_code UTF8_string <> f_code nil_format
  /\ f_code boolean <> f_code nil_format.
Proof.
  intros [_ Hformats Hgeneric [Hs Hsn] [Hb Hbn] [Hn Hnn] _ _].
  specialize (Hformats generic Hgeneric).
  repeat split; intros Heq;
    eapply (NoDup_map_eq f_code) in Heq; eauto;
    rewrite Heq in *; congruence.
Qed.

(** C9: a buffer longer than two bytes that starts with the nil tag does
    not decode to null.  The nil test compares whole buffers, so the
    buffer reaches the table lookup, which finds the generic type and
    its nil format; neither a sigil nor a suffix is declared there, and
    the result is the missing decoder error. *)
Theorem decode_nil_tag_with_payload (d : list byte) :
  registry_ok ->
  2 < List.length d ->
  firstn 2 d = NIL_TF ->
  decode (VBuffer d)
  = Throw (NoDecoder (t_type generic) (f_format nil_format)).
Proof.
  intros Hok Hlen Htag.
  destruct (generic_codes_distinct Hok) as (_ & Hsn & Hbn).
  destruct Hok as [Htypes Hformats Hgeneric _ _ [Hn _] Hsigil Hsuffix].
  destruct d as [|b0 [|b1 [|b2 rest]]]; simpl in Hlen; try lia.
  injection Htag as -> ->.
  rewrite decode_buffer_lookup.
  - rewrite (find_pointwise _ (fun type => equals [t_code type] [t_code generic]))
      by (intros; symmetry; apply equals_singleton).
    rewrite (find_unique t_code TYPES generic) by auto.
    rewrite (find_pointwise _
               (fun format => equals [f_code format] [f_code nil_format]))
      by (intros; symmetry; apply equals_singleton).
    rewrite (find_unique f_code (t_formats generic) nil_format) by auto.
    now rewrite Hsigil, Hsuffix.
  - discriminate.
  - intros [= E]. now apply Hbn.
  - intros [= E]. now apply Hsn.
Qed.

(** *** Strings *)

(** With a sigil of at most one character, the characters handed to the
    base64 decoder are those between the sigil and the suffix. *)
Lemma sigilSuffix_data_payload
    (type : BFEType) (format : BFEFormat) (s payload : string) :
  String.length (or_empty (t_sigil type)) <= 1 ->
  s = (or_empty (t_sigil type) ++ payload ++ or_empty (f_suffix format))%string ->
  sigilSuffix_data s type format = payload.
Proof.
  intros Hone ->. unfold sigilSuffix_data.
  assert (Hsigil :
    (if truthy (t_sigil type)
     then string_slice (or_empty (t_sigil type) ++ payload
                        ++ or_empty (f_suffix format)) 1
     else (or_empty (t_sigil type) ++ payload
           ++ or_empty (f_suffix format))%string)
    = (payload ++ or_empty (f_suffix format))%string).
  { destruct (t_sigil type) as [[|c [|c' sg]]|]; simpl in *;
      try reflexivity; try lia.
    apply string_slice_1. }
  rewrite Hsigil.
  destruct (f_suffix format) as [[|c sfx]|]; simpl;
    try apply app_empty_r.
  apply (string_slice_end_app payload (String c sfx)).
Qed.

(** C3, as the code has it: [encode] of a string follows the matcher.
    On a type and a format, when the sigil of the type is one character
    (or there is none), it emits the code of the type, the code of the
    format and the base64 decoding of the payload between sigil and
    suffix; on a type without a format it throws the unknown format
    error; on no type it emits the generic UTF8 string tag and the UTF8
    bytes of the string. *)
Theorem encode_string (s : string) :
  (forall type format payload,
      findClassicTypeFormat s TYPES = (Some type, Some format) ->
      String.length (or_empty (t_sigil type)) <= 1 ->
      s = (or_empty (t_sigil type) ++ payload
           ++ or_empty (f_suffix format))%string ->
      encode (VString s)
      = Ok (VBuffer (t_code type :: f_code format :: base64_decode payload)))
  /\ (forall type,
      findClassicTypeFormat s TYPES = (Some type, None) ->
      encode (VString s) = Throw (UnknownFormat (t_type type)))
  /\ (fst (findClassicTypeFormat s TYPES) = None ->
      encode (VString s)
      = Ok (VBuffer (t_code generic :: f_code UTF8_string :: utf8_encode s))).
Proof.
  repeat split.
  - intros type format payload Hfind Hone Hs. simpl. rewrite Hfind.
    unfold encoder_sigilSuffix.
    now rewrite (sigilSuffix_data_payload type format s payload).
  - intros type Hfind. simpl. now rewrite Hfind.
  - intros Hfind. simpl.
    destruct (findClassicTypeFormat s TYPES) as [[type|] format];
      [discriminate | reflexivity].
Qed.


(** *** Arrays and objects *)

Lemma bind_ok {A B} (r : result A) (k : A -> result B) (b : B) :
  bind r k = Ok b -> exists a, r = Ok a /\ k a = Ok b.
Proof. destruct r as [a|e|]; simpl; [eauto | discriminate | discriminate]. Qed.

Lemma bind_throw {A B} (r : result A) (k : A -> result B) (e : error) :
  bind r k = Throw e ->
  r = Throw e \/ exists a, r = Ok a /\ k a = Throw e.
Proof.
  destruct r as [a|e'|]; simpl; [eauto | intros [= ->]; now left | discriminate].
Qed.

Lemma after_exotic_ok {A B} (r : result A) (b : B) : after_exotic r <> Ok b.
Proof. destruct r; discriminate. Qed.

Lemma after_exotic_throw {A B} (r : result A) (e : error) :
  @after_exotic A B r = Throw e <-> r = Throw e.
Proof. destruct r; simpl; split; congruence. Qed.

Lemma after_exotic_throw_inv {A B} (r : result A) (e : error) :
  @after_exotic A B r = Throw e -> r = Throw e.
Proof. apply after_exotic_throw. Qed.

Lemma assign_other (key : string) (y : value)
    (rest : result (list (string * value))) :
  key <> "__proto__" ->
  assign key y rest = (output <- rest ;; Ok ((key, y) :: output)).
Proof.
  intros Hkey. unfold assign.
  now rewrite (proj2 (String.eqb_neq key "__proto__") Hkey).
Qed.

Lemma assign_ok (key : string) (y : value)
    (rest : result (list (string * value))) (out : list (string * value)) :
  assign key y rest = Ok out ->
  key = "__proto__" /\ sets_prototype y = false /\ rest = Ok out
  \/ key <> "__proto__"
     /\ exists out', rest = Ok out' /\ out = (key, y) :: out'.
Proof.
  unfold assign. destruct (String.eqb_spec key "__proto__") as [->|Hkey].
  - destruct (sets_prototype y); [|now left].
    intros H. now apply after_exotic_ok in H.
  - intros H. apply bind_ok in H as (out' & Hout & [= <-]). right. eauto.
Qed.

Lemma assign_throw (key : string) (y : value)
    (rest : result (list (string * value))) (e : error) :
  assign key y rest = Throw e <-> rest = Throw e.
Proof.
  unfold assign. destruct (String.eqb key "__proto__").
  - destruct (sets_prototype y); [apply after_exotic_throw | reflexivity].
  - destruct rest; simpl; split; congruence.
Qed.

Lemma encode_elements_hole (r : list (option value)) :
  encode_elements (None :: r)
  = (ys <- encode_elements r ;; Ok (None :: ys)).
Proof. reflexivity. Qed.

Lemma encode_elements_cons (x : value) (r : list (option value)) :
  encode_elements (Some x :: r)
  = match encode x with
    | Ok y =>
        ys <- encode_elements r ;;
        Ok (Some (if is_undefined y then VBuffer NIL_TF else y) :: ys)
    | Throw e => Throw e
    | Exotic => after_exotic (encode_elements r)
    end.
Proof. reflexivity. Qed.

Lemma encode_properties_cons
    (key : string) (x : value) (r : list (string * value)) :
  encode_properties ((key, x) :: r)
  = match encode x with
    | Ok y =>
        if is_undefined y then encode_properties r
        else assign key y (encode_properties r)
    | Throw e => Throw e
    | Exotic => after_exotic (encode_properties r)
    end.
Proof. reflexivity. Qed.

Lemma decode_elements_hole (r : list (option value)) :
  decode_elements (None :: r)
  = (ys <- decode_elements r ;; Ok (None :: ys)).
Proof. reflexivity. Qed.

Lemma decode_elements_cons (x : value) (r : list (option value)) :
  decode_elements (Some x :: r)
  = match decode x with
    | Ok y => ys <- decode_elements r ;; Ok (Some y :: ys)
    | Throw e => Throw e
    | Exotic => after_exotic (decode_elements r)
    end.
Proof. reflexivity. Qed.

Lemma decode_properties_cons
    (key : string) (x : value) (r : list (string * value)) :
  decode_properties ((key, x) :: r)
  = match decode x with
    | Ok y => assign key y (decode_properties r)
    | Throw e => Throw e
    | Exotic => after_exotic (decode_properties r)
    end.
Proof. reflexivity. Qed.

(** The element [input.map] stores for an element that encoded to [y]. *)
Local Abbreviation nil_for_undefined :=
  (fun y : value => if is_undefined y then VBuffer NIL_TF else y).

Lemma encode_elements_map (xs ys : list (option value)) :
  Forall2 (holes_or (fun x y => encode x = Ok y)) xs ys ->
  encode_elements xs = Ok (map (option_map nil_for_undefined) ys).
Proof.
  induction 1 as [|[x|] [y|] xs ys Hx _ IH];
    [reflexivity | | destruct Hx | destruct Hx | ]; simpl in Hx.
  - rewrite encode_elements_cons, Hx, IH. reflexivity.
  - rewrite encode_elements_hole, IH. reflexivity.
Qed.

Lemma encode_properties_filter
    (kvs : list (string * value)) (ys : list value) :
  no_proto_key kvs ->
  Forall2 (fun kv y => encode (snd kv) = Ok y) kvs ys ->
  encode_properties kvs
  = Ok (filter (fun kv => negb (is_undefined (snd kv)))
               (combine (map fst kvs) ys)).
Proof.
  intros Hkeys H. induction H as [|[key x] y kvs ys Hx _ IH]; [reflexivity|].
  inversion Hkeys as [|? ? Hkey Hkeys']; subst. simpl in Hx, Hkey.
  rewrite encode_properties_cons, Hx, (IH Hkeys'). simpl.
  destruct (is_undefined y); [reflexivity|].
  now rewrite assign_other.
Qed.

Lemma holes_face_holes {A B} (R : A -> B -> Prop)
    (xs : list (option A)) (ys : list (option B)) (i : nat) :
  Forall2 (holes_or R) xs ys ->
  nth_error ys i = Some None <-> nth_error xs i = Some None.
Proof.
  intros H. revert i.
  induction H as [|[x|] [y|] xs ys Hx _ IH]; intros [|i]; simpl in *;
    try contradiction; try tauto; try apply IH; split; discriminate.
Qed.

(** C5, as the code has it: when the elements of an array encode to
    [ys], the array encodes to an array of the same length that has the
    nil tag where [ys] has [undefined] and the element of [ys]
    otherwise, holds no [undefined], and has a hole exactly where the
    input has one; when the values of an object without an own key
    ["__proto__"] encode to [ys], the object encodes to the object of
    the keys whose value is not [undefined], in order, each with its
    encoded value. *)
Theorem encode_array_object :
  (forall xs ys,
      Forall2 (holes_or (fun x y => encode x = Ok y)) xs ys ->
      exists out,
        encode (VArray xs) = Ok (VArray out)
        /\ List.length out = List.length xs
        /\ (forall i y,
              nth_error ys i = Some (Some y) ->
              nth_error out i
              = Some (Some (if is_undefined y then VBuffer NIL_TF else y)))
        /\ (forall i, nth_error out i = Some None
                      <-> nth_error xs i = Some None)
        /\ ~ In (Some VUndefined) out)
  /\ (forall kvs ys,
      no_proto_key kvs ->
      Forall2 (fun kv y => encode (snd kv) = Ok y) kvs ys ->
      encode (VObject kvs)
      = Ok (VObject (filter (fun kv => negb (is_undefined (snd kv)))
                            (combine (map fst kvs) ys)))).
Proof.
  split.
  - intros xs ys H.
    exists (map (option_map nil_for_undefined) ys).
    split; [|split; [|split; [|split]]].
    + now rewrite encode_array, (encode_elements_map xs ys H).
    + rewrite length_map. symmetry. eapply Forall2_length; eauto.
    + intros i y Hy. now rewrite nth_error_map, Hy.
    + intros i. rewrite <- (holes_face_holes _ xs ys i H), nth_error_map.
      destruct (nth_error ys i) as [[y|]|]; simpl; split; congruence.
    + rewrite in_map_iff. intros [[y|] [Hy _]]; [|discriminate].
      simpl in Hy. injection Hy as Hy. now destruct y.
  - intros kvs ys Hkeys H.
    now rewrite encode_object, (encode_properties_filter kvs ys Hkeys H).
Qed.

(** *** Encoding twice *)

Lemma encode_elements_fixed (xs : list (option value)) :
  Forall (present (fun x => forall w, encode x = Ok w -> encode w = Ok w))
         xs ->
  forall ys, encode_elements xs = Ok ys -> encode_elements ys = Ok ys.
Proof.
  induction 1 as [|o xs Ho _ IH]; intros ys.
  - intros [= <-]. reflexivity.
  - destruct Ho as [|x Hx].
    + rewrite encode_elements_hole. intros H.
      apply bind_ok in H as (ys' & Hys & [= <-]).
      now rewrite encode_elements_hole, (IH _ Hys).
    + rewrite encode_elements_cons.
      destruct (encode x) as [y| |] eqn:Hy; try discriminate.
      * intros H. apply bind_ok in H as (ys' & Hys & [= <-]).
        rewrite encode_elements_cons.
        destruct (is_undefined y) eqn:E.
        -- simpl. now rewrite (IH _ Hys).
        -- rewrite (Hx _ eq_refl), (IH _ Hys). simpl. now rewrite E.
      * intros H. now apply after_exotic_ok in H.
Qed.

Lemma encode_properties_fixed (kvs : list (string * value)) :
  Forall (fun kv => forall w, encode (snd kv) = Ok w -> encode w = Ok w) kvs ->
  forall out, encode_properties kvs = Ok out -> encode_properties out = Ok out.
Proof.
  induction 1 as [|[key x] kvs Hx _ IH]; intros out.
  - intros [= <-]. reflexivity.
  - rewrite encode_properties_cons. simpl in Hx.
    destruct (encode x) as [y| |] eqn:Hy; try discriminate.
    + destruct (is_undefined y) eqn:E; [now apply IH|].
      intros H. apply assign_ok in H
        as [(_ & _ & H)|(Hkey & out' & Hout & ->)]; [now apply IH|].
      rewrite encode_properties_cons, (Hx _ eq_refl), E, (IH _ Hout).
      now rewrite assign_other.
    + intros H. now apply after_exotic_ok in H.
Qed.

(** X17: whenever [encode v] returns a value [w] of the model, that is
    a value in which no object had its prototype replaced, [encode w]
    returns [w]. *)
Theorem encode_idempotent (v w : value) :
  encode v = Ok w -> encode w = Ok w.
Proof.
  revert w. induction v as [ | | b | n | s | d | xs IH | kvs IH | | ]
    using value_nested_ind; intros w; try discriminate.
  - intros [= <-]. reflexivity.
  - intros [= <-]. reflexivity.
  - intros [= <-]. reflexivity.
  - intros [= <-]. reflexivity.
  - simpl.
    destruct (findClassicTypeFormat s TYPES) as [[type|] [format|]];
      intros [= <-]; reflexivity.
  - intros [= <-]. reflexivity.
  - rewrite encode_array. intros H.
    apply bind_ok in H as (ys & Hys & [= <-]).
    now rewrite encode_array, (encode_elements_fixed xs IH ys Hys).
  - rewrite encode_object. intros H.
    apply bind_ok in H as (out & Hout & [= <-]).
    now rewrite encode_object, (encode_properties_fixed kvs IH out Hout).
Qed.

(** C10, where the code departs from the claim: for an object with an
    own key ["__proto__"] whose value is an object, [encode] returns an
    object whose prototype is the encoded value; its own keys are the
    other keys only. *)
Theorem encode_proto_key_object :
  encode (VObject [("__proto__", VObject [("a", VInteger 1)]);
                   ("b", VInteger 2)])
  = Exotic.
Proof. reflexivity. Qed.

(** *** Round trip *)

Lemma roundtrip_elements (xs : list (option value)) :
  Forall (present (fun x => exists w, encode x = Ok w /\ decode w = Ok x))
         xs ->
  exists ys, encode_elements xs = Ok ys /\ decode_elements ys = Ok xs.
Proof.
  induction 1 as [|o xs Ho _ (ys & Hys & Hxs)].
  - exists []. split; reflexivity.
  - destruct Ho as [|x (w & Hw & Hx)].
    + exists (None :: ys). rewrite encode_elements_hole, Hys.
      split; [reflexivity|]. now rewrite decode_elements_hole, Hxs.
    + exists (Some w :: ys). rewrite encode_elements_cons, Hw, Hys.
      assert (is_undefined w = false) as E
        by (destruct w; try reflexivity; discriminate).
      split; [simpl; now rewrite E|].
      now rewrite decode_elements_cons, Hx, Hxs.
Qed.

Lemma roundtrip_properties (kvs : list (string * value)) :
  no_proto_key kvs ->
  Forall (fun kv => exists w, encode (snd kv) = Ok w /\ decode w = Ok (snd kv))
         kvs ->
  exists out, encode_properties kvs = Ok out /\ decode_properties out = Ok kvs.
Proof.
  intros Hkeys H.
  induction H as [|[key x] kvs (w & Hw & Hx) _ IH].
  - exists []. split; reflexivity.
  - inversion Hkeys as [|? ? Hkey Hkeys']; subst.
    destruct (IH Hkeys') as (out & Hout & Hkvs).
    simpl in Hw, Hx, Hkey. exists ((key, w) :: out).
    rewrite encode_properties_cons, Hw, Hout.
    assert (is_undefined w = false) as E
      by (destruct w; try reflexivity; discriminate).
    rewrite E, assign_other by assumption.
    split; [reflexivity|].
    now rewrite decode_properties_cons, Hx, Hkvs, assign_other.
Qed.

Lemma Forall_modus {A} (P Q : A -> Prop) (l : list A) :
  Forall (fun x => P x -> Q x) l -> Forall P l -> Forall Q l.
Proof.
  induction 1 as [|x l Hx _ IH]; intros HP; constructor;
    inversion HP; subst; auto.
Qed.

Lemma Forall_present_modus {A} (P Q : A -> Prop) (l : list (option A)) :
  Forall (present (fun x => P x -> Q x)) l ->
  Forall (present P) l -> Forall (present Q) l.
Proof.
  induction 1 as [|o l Ho _ IH]; intros HP; constructor;
    inversion HP as [|? ? HPo HPl]; subst; auto.
  destruct Ho; [constructor|]. inversion HPo; subst. constructor. auto.
Qed.

(** C1, as the code has it: with a table that keeps the registry
    invariants and one-character sigils, and a matcher that reports
    entries of the table, [decode (encode v)] is [v] for every value
    built from integers, booleans, null, recognized strings with a
    canonical base64 payload, unrecognized strings that survive the
    UTF8 codec, and the arrays and the objects without an own key
    ["__proto__"] of these. *)
Theorem decode_encode (v : value) :
  registry_ok -> sigils_one_char -> matcher_sound ->
  roundtrip_value v ->
  exists w, encode v = Ok w /\ decode w = Ok v.
Proof.
  intros Hok Hone Hmatch.
  destruct (generic_codes_distinct Hok) as (Hsb & Hsn & Hbn).
  induction v as [ | | b | n | s | d | xs IH | kvs IH | | ]
    using value_nested_ind; intros Hv; inversion Hv; subst.
  - exists (VBuffer NIL_TF). split; [reflexivity|].
    simpl. unfold decode_buffer. now rewrite equals_refl.
  - eexists. split; [reflexivity|].
    destruct b; simpl; unfold decode_buffer; simpl;
      rewrite !Byte.byte_dec_lb by reflexivity; simpl;
      rewrite ?andb_false_r; simpl;
      rewrite !Byte.byte_dec_lb by reflexivity; reflexivity.
  - eexists. split; reflexivity.
  - (* a recognized string *)
    match goal with
    | H : findClassicTypeFormat _ TYPES = _ |- _ =>
        rename H into Hfind
    end.
    destruct (Hmatch _ _ _ Hfind) as (Htype & Hformat & Hsigil).
    destruct Hok as [Htypes Hformats Hgeneric _ _ _ Hnosigil _].
    assert (Hcode : t_code type <> t_code generic).
    { intros Heq. apply (NoDup_map_eq t_code TYPES) in Heq; auto.
      rewrite Heq, Hnosigil in Hsigil. discriminate. }
    eexists. split.
    + simpl. rewrite Hfind. unfold encoder_sigilSuffix.
      rewrite (sigilSuffix_data_payload type format _ payload);
        [reflexivity | now apply Hone | reflexivity].
    + simpl ([_] ++ _). rewrite decode_buffer_lookup;
        try (intros [= E]; now apply Hcode).
      rewrite (find_pointwise _ (fun t => equals [t_code t] [t_code type]))
        by (intros; symmetry; apply equals_singleton).
      rewrite (find_unique t_code TYPES type) by auto.
      rewrite (find_pointwise _ (fun f => equals [f_code f] [f_code format]))
        by (intros; symmetry; apply equals_singleton).
      rewrite (find_unique f_code (t_formats type) format) by auto.
      rewrite Hsigil. simpl.
      match goal with
      | H : base64_encode (base64_decode _) = _ |- _ => now rewrite H
      end.
  - (* an unrecognized string *)
    eexists. split.
    + simpl. destruct (findClassicTypeFormat s TYPES) as [[type|] format];
        [discriminate | reflexivity].
    + simpl. unfold decode_buffer, encoder_string. simpl.
      rewrite !Byte.byte_dec_lb by reflexivity. simpl.
      assert (Byte.eqb (f_code UTF8_string) (f_code nil_format) = false) as ->.
      { destruct (Byte.eqb _ _) eqn:E; [|reflexivity].
        apply Byte.byte_dec_bl in E. contradiction. }
      assert (Byte.eqb (f_code UTF8_string) (f_code boolean) = false) as ->.
      { destruct (Byte.eqb _ _) eqn:E; [|reflexivity].
        apply Byte.byte_dec_bl in E. contradiction. }
      simpl. rewrite Byte.byte_dec_lb by reflexivity.
      unfold decoder_string. simpl.
      match goal with
      | H : utf8_decode (utf8_encode _) = _ |- _ => now rewrite H
      end.
  - destruct (roundtrip_elements xs) as (ys & Hys & Hxs).
    { eapply Forall_present_modus; eauto. }
    exists (VArray ys). now rewrite encode_array, Hys, decode_array, Hxs.
  - destruct (roundtrip_properties kvs) as (out & Hout & Hkvs);
      [assumption | |].
    { eapply (Forall_modus (fun kv => roundtrip_value (snd kv))); eauto. }
    exists (VObject out). now rewrite encode_object, Hout, decode_object, Hkvs.
Qed.

(** ** Further properties of [encode] *)

Local Abbreviation encodable := (encodable TYPES findClassicTypeFormat).
Local Abbreviation codec_value := (codec_value TYPES findClassicTypeFormat).
Local Abbreviation canonical :=
  (canonical TYPES findClassicTypeFormat utf8_encode utf8_decode
     base64_decode base64_encode).
Local Abbreviation canonical_properties :=
  (canonical_properties TYPES findClassicTypeFormat utf8_encode utf8_decode
     base64_decode base64_encode).

Lemma encode_elements_encoded (xs : list (option value)) :
  Forall (present (fun x => forall w, encode x = Ok w ->
                            x = VUndefined /\ w = VUndefined \/ encoded w))
         xs ->
  forall ys, encode_elements xs = Ok ys -> Forall (present encoded) ys.
Proof.
  induction 1 as [|o xs Ho _ IH]; intros ys.
  - intros [= <-]. constructor.
  - destruct Ho as [|x Hx].
    + rewrite encode_elements_hole. intros H.
      apply bind_ok in H as (ys' & Hys & [= <-]).
      constructor; [constructor | now apply IH].
    + rewrite encode_elements_cons.
      destruct (encode x) as [y| |] eqn:Hy; try discriminate.
      * intros H. apply bind_ok in H as (ys' & Hys & [= <-]).
        constructor; [|now apply IH]. constructor.
        destruct (Hx _ eq_refl) as [[_ ->]|Hw]; [constructor|].
        destruct Hw; simpl; now constructor.
      * intros H. now apply after_exotic_ok in H.
Qed.

Lemma encode_properties_encoded (kvs : list (string * value)) :
  Forall (fun kv => forall w, encode (snd kv) = Ok w ->
                    snd kv = VUndefined /\ w = VUndefined \/ encoded w) kvs ->
  forall out, encode_properties kvs = Ok out ->
              no_proto_key out /\ Forall (fun kv => encoded (snd kv)) out.
Proof.
  induction 1 as [|[key x] kvs Hx _ IH]; intros out.
  - intros [= <-]. split; constructor.
  - rewrite encode_properties_cons. simpl in Hx.
    destruct (encode x) as [y| |] eqn:Hy; try discriminate.
    + destruct (is_undefined y) eqn:E; [now apply IH|].
      intros H. apply assign_ok in H
        as [(_ & _ & H)|(Hkey & out' & Hout & ->)]; [now apply IH|].
      destruct (IH _ Hout) as [Hkeys Henc].
      destruct (Hx _ eq_refl) as [[_ ->]|Hw]; [discriminate|].
      split; constructor; assumption.
    + intros H. now apply after_exotic_ok in H.
Qed.

(** X1: whatever [encode] returns is [undefined], and then its input was
    [undefined], or is made of buffers and integers only, in arrays and
    objects that hold no [undefined]: no string, boolean or null is
    left in the output, and no object of the output has an own key
    ["__proto__"]. *)
Theorem encode_output_encoded (v w : value) :
  encode v = Ok w -> v = VUndefined /\ w = VUndefined \/ encoded w.
Proof.
  revert w. induction v as [ | | b | n | s | d | xs IH | kvs IH | | ]
    using value_nested_ind; intros w; try discriminate.
  - intros [= <-]. now left.
  - intros [= <-]. right. constructor.
  - intros [= <-]. right. constructor.
  - intros [= <-]. right. constructor.
  - simpl.
    destruct (findClassicTypeFormat s TYPES) as [[type|] [format|]];
      intros [= <-]; right; constructor.
  - intros [= <-]. right. constructor.
  - rewrite encode_array. intros H.
    apply bind_ok in H as (ys & Hys & [= <-]).
    right. constructor. now apply (encode_elements_encoded xs).
  - rewrite encode_object. intros H.
    apply bind_ok in H as (out & Hout & [= <-]).
    right. now constructor; apply (encode_properties_encoded kvs IH out).
Qed.

Lemma encode_elements_id (xs : list (option value)) :
  Forall (present (fun x => encoded x -> encode x = Ok x)) xs ->
  Forall (present encoded) xs -> encode_elements xs = Ok xs.
Proof.
  induction 1 as [|o xs Ho _ IH]; intros Hxs; [reflexivity|].
  inversion Hxs as [|? ? Hex Hexs]; subst.
  destruct Ho as [|x Hx].
  - now rewrite encode_elements_hole, (IH Hexs).
  - inversion Hex as [|? Hex']; subst.
    rewrite encode_elements_cons, (Hx Hex'), (IH Hexs).
    now destruct Hex'.
Qed.

Lemma encode_properties_id (kvs : list (string * value)) :
  Forall (fun kv => encoded (snd kv) -> encode (snd kv) = Ok (snd kv)) kvs ->
  no_proto_key kvs ->
  Forall (fun kv => encoded (snd kv)) kvs -> encode_properties kvs = Ok kvs.
Proof.
  induction 1 as [|[key x] kvs Hx _ IH]; intros Hkeys Hkvs; [reflexivity|].
  inversion Hkvs as [|? ? Hex Hexs]; subst.
  inversion Hkeys as [|? ? Hkey Hkeys']; subst. simpl in Hx, Hex, Hkey.
  rewrite encode_properties_cons, (Hx Hex), (IH Hkeys' Hexs).
  destruct Hex; simpl; now rewrite assign_other.
Qed.

(** X2: [encode] returns unchanged every value made of buffers and
    integers only, in arrays, sparse or not, and in objects without an
    own key ["__proto__"], that hold no [undefined]. *)
Theorem encode_encoded (v : value) : encoded v -> encode v = Ok v.
Proof.
  induction v as [ | | b | n | s | d | xs IH | kvs IH | | ]
    using value_nested_ind; intros Hv; inversion Hv; subst;
    try reflexivity.
  - now rewrite encode_array, encode_elements_id.
  - now rewrite encode_object, encode_properties_id.
Qed.

Lemma returns_then {A B} (r : result A) (f : A -> B) :
  returns (a <- r ;; Ok (f a)) <-> returns r.
Proof. now destruct r. Qed.

Lemma returns_after_exotic {A B} (r : result A) :
  returns (@after_exotic A B r) <-> returns r.
Proof. now destruct r. Qed.

Lemma returns_assign (key : string) (y : value)
    (rest : result (list (string * value))) :
  returns (assign key y rest) <-> returns rest.
Proof.
  unfold assign. destruct (String.eqb key "__proto__").
  - destruct (sets_prototype y); [apply returns_after_exotic | reflexivity].
  - apply (returns_then rest (cons (key, y))).
Qed.

Lemma Forall_cons_iff' {A} (P : A -> Prop) (x : A) (l : list A) :
  Forall P (x :: l) <-> P x /\ Forall P l.
Proof.
  split; [intros H; inversion H; now subst | intros [Hx Hl]; now constructor].
Qed.

Lemma present_some {A} (P : A -> Prop) (x : A) : present P (Some x) <-> P x.
Proof. split; [now inversion 1 | now constructor]. Qed.

Lemma present_none {A} (P : A -> Prop) : present P None <-> True.
Proof. split; [trivial | constructor]. Qed.

Lemma encode_elements_returns (xs : list (option value)) :
  returns (encode_elements xs)
  <-> Forall (present (fun x => returns (encode x))) xs.
Proof.
  induction xs as [|[x|] xs IH]; rewrite ?Forall_cons_iff'.
  - split; [constructor | exact (fun _ => I)].
  - rewrite present_some, encode_elements_cons, <- IH.
    destruct (encode x) as [y|e|]; simpl returns at 2.
    + rewrite (returns_then (encode_elements xs)). tauto.
    + simpl. tauto.
    + rewrite returns_after_exotic. tauto.
  - rewrite present_none, encode_elements_hole, <- IH.
    rewrite (returns_then (encode_elements xs)). tauto.
Qed.

Lemma encode_properties_returns (kvs : list (string * value)) :
  returns (encode_properties kvs)
  <-> Forall (fun kv => returns (encode (snd kv))) kvs.
Proof.
  induction kvs as [|[key x] kvs IH]; rewrite ?Forall_cons_iff'.
  - split; [constructor | exact (fun _ => I)].
  - rewrite encode_properties_cons, <- IH. simpl snd.
    destruct (encode x) as [y|e|]; simpl returns at 2.
    + destruct (is_undefined y); rewrite ?returns_assign; tauto.
    + simpl. tauto.
    + rewrite returns_after_exotic. tauto.
Qed.

Lemma Forall_iff {A} (P Q : A -> Prop) (l : list A) :
  Forall (fun x => P x <-> Q x) l -> Forall P l <-> Forall Q l.
Proof.
  induction 1 as [|x l Hx _ IH]; [split; constructor|].
  rewrite !Forall_cons_iff'. tauto.
Qed.

Lemma Forall_present_iff {A} (P Q : A -> Prop) (l : list (option A)) :
  Forall (present (fun x => P x <-> Q x)) l ->
  Forall (present P) l <-> Forall (present Q) l.
Proof.
  induction 1 as [|o l Ho _ IH]; [split; constructor|].
  rewrite !Forall_cons_iff'. destruct Ho as [|x Hx].
  - rewrite !present_none. tauto.
  - rewrite !present_some. tauto.
Qed.

(** X3: [encode] returns, and does not throw, exactly on the values
    that hold no symbol, no value of another kind and no string for
    which the matcher reports a type without a format. *)
Theorem encode_succeeds_iff (v : value) :
  returns (encode v) <-> encodable v.
Proof.
  induction v as [ | | b | n | s | d | xs IH | kvs IH | | ]
    using value_nested_ind;
    try solve [split; [constructor | exact (fun _ => I)]].
  - simpl. split.
    + intros Hr. constructor. intros type Hfind.
      now rewrite Hfind in Hr.
    + intros H. inversion H as [| | | | |? Hfind| |]; subst.
      destruct (findClassicTypeFormat s TYPES) as [[type|] [format|]];
        try exact I.
      now elim (Hfind type).
  - rewrite encode_array, (returns_then (encode_elements xs) VArray),
      encode_elements_returns, (Forall_present_iff _ _ xs IH).
    split; [now constructor | now inversion 1].
  - rewrite encode_object, (returns_then (encode_properties kvs) VObject),
      encode_properties_returns,
      (Forall_iff _ (fun kv => encodable (snd kv)) kvs IH).
    split; [now constructor | now inversion 1].
  - split; [intros [] | inversion 1].
  - split; [intros [] | inversion 1].
Qed.

(** X4: the errors of [encode]: the error for a value that cannot be
    encoded, the TypeError of a symbol, or the unknown format error,
    named after a type the matcher reported without a format for some
    string. *)
Theorem encode_throws (v : value) (e : error) :
  encode v = Throw e ->
  e = UnencodableValue
  \/ e = TypeError
  \/ exists s type,
      findClassicTypeFormat s TYPES = (Some type, None)
      /\ e = UnknownFormat (t_type type).
Proof.
  induction v as [ | | b | n | s | d | xs IH | kvs IH | | ]
    using value_nested_ind; try discriminate.
  - simpl.
    destruct (findClassicTypeFormat s TYPES) as [[type|] [format|]] eqn:E;
      try discriminate.
    intros [= <-]. right. right. eauto.
  - rewrite encode_array. intros H.
    apply bind_throw in H as [H|(ys & _ & H)]; [|discriminate].
    induction IH as [|o xs Ho _ IHxs]; [discriminate|].
    destruct Ho as [|x Hx].
    + rewrite encode_elements_hole in H.
      apply bind_throw in H as [H|(ys & _ & H)];
        [now apply IHxs | discriminate].
    + rewrite encode_elements_cons in H.
      destruct (encode x) as [y|e'|].
      * apply bind_throw in H as [H|(ys & _ & H)];
          [now apply IHxs | discriminate].
      * apply Hx. now injection H as ->.
      * apply after_exotic_throw_inv in H. now apply IHxs.
  - rewrite encode_object. intros H.
    apply bind_throw in H as [H|(out & _ & H)]; [|discriminate].
    induction IH as [|[key x] kvs Hx _ IHkvs]; [discriminate|].
    rewrite encode_properties_cons in H. simpl in Hx.
    destruct (encode x) as [y|e'|].
    + destruct (is_undefined y); [now apply IHkvs|].
      apply assign_throw in H. now apply IHkvs.
    + apply Hx. now injection H as ->.
    + apply after_exotic_throw_inv in H. now apply IHkvs.
  - intros [= <-]. right. now left.
  - intros [= <-]. now left.
Qed.

Lemma encode_elements_throw (pre : list (option value)) (x : value)
    (post : list (option value)) (e : error) :
  Forall (present (fun x => returns (encode x))) pre ->
  encode x = Throw e ->
  encode_elements (pre ++ Some x :: post) = Throw e.
Proof.
  intros Hpre Hx. induction Hpre as [|o pre Ho _ IH]; simpl app.
  - now rewrite encode_elements_cons, Hx.
  - destruct Ho as [|x' Hx'].
    + now rewrite encode_elements_hole, IH.
    + rewrite encode_elements_cons, IH.
      now destruct (encode x').
Qed.

Lemma encode_properties_throw (pre : list (string * value)) (key : string)
    (x : value) (post : list (string * value)) (e : error) :
  Forall (fun kv => returns (encode (snd kv))) pre ->
  encode x = Throw e ->
  encode_properties (pre ++ (key, x) :: post) = Throw e.
Proof.
  intros Hpre Hx. induction Hpre as [|[key' x'] pre Hx' _ IH]; simpl app.
  - now rewrite encode_properties_cons, Hx.
  - simpl in Hx'. rewrite encode_properties_cons, IH.
    destruct (encode x') as [y| |]; try easy.
    destruct (is_undefined y); [reflexivity|]. now apply assign_throw.
Qed.

(** X5: [encode] stops at the first failure: when the elements of an
    array before some element do not throw and that element throws,
    the array throws the same error, whatever comes after; the same
    holds for the values of an object in key order. *)
Theorem encode_fails_fast :
  (forall pre x post e,
      Forall (present (fun x => returns (encode x))) pre ->
      encode x = Throw e ->
      encode (VArray (pre ++ Some x :: post)) = Throw e)
  /\ (forall pre key x post e,
      Forall (fun kv => returns (encode (snd kv))) pre ->
      encode x = Throw e ->
      encode (VObject (pre ++ (key, x) :: post)) = Throw e).
Proof.
  split.
  - intros pre x post e Hpre Hx.
    now rewrite encode_array, (encode_elements_throw pre x post e).
  - intros pre key x post e Hpre Hx.
    now rewrite encode_object, (encode_properties_throw pre key x post e).
Qed.

(** ** Further properties of [decode] *)

Lemma decode_elements_throw (pre : list (option value)) (x : value)
    (post : list (option value)) (e : error) :
  Forall (present (fun x => returns (decode x))) pre ->
  decode x = Throw e ->
  decode_elements (pre ++ Some x :: post) = Throw e.
Proof.
  intros Hpre Hx. induction Hpre as [|o pre Ho _ IH]; simpl app.
  - now rewrite decode_elements_cons, Hx.
  - destruct Ho as [|x' Hx'].
    + now rewrite decode_elements_hole, IH.
    + rewrite decode_elements_cons, IH.
      now destruct (decode x').
Qed.

Lemma decode_properties_throw (pre : list (string * value)) (key : string)
    (x : value) (post : list (string * value)) (e : error) :
  Forall (fun kv => returns (decode (snd kv))) pre ->
  decode x = Throw e ->
  decode_properties (pre ++ (key, x) :: post) = Throw e.
Proof.
  intros Hpre Hx. induction Hpre as [|[key' x'] pre Hx' _ IH]; simpl app.
  - now rewrite decode_properties_cons, Hx.
  - simpl in Hx'. rewrite decode_properties_cons, IH.
    destruct (decode x') as [y| |]; try easy. now apply assign_throw.
Qed.

(** X6: [decode] stops at the first failure: when the elements of an
    array before some element do not throw and that element throws,
    the array throws the same error; the same holds for the values of
    an object in key order. *)
Theorem decode_fails_fast :
  (forall pre x post e,
      Forall (present (fun x => returns (decode x))) pre ->
      decode x = Throw e ->
      decode (VArray (pre ++ Some x :: post)) = Throw e)
  /\ (forall pre key x post e,
      Forall (fun kv => returns (decode (snd kv))) pre ->
      decode x = Throw e ->
      decode (VObject (pre ++ (key, x) :: post)) = Throw e).
Proof.
  split.
  - intros pre x post e Hpre Hx.
    now rewrite decode_array, (decode_elements_throw pre x post e).
  - intros pre key x post e Hpre Hx.
    now rewrite decode_object, (decode_properties_throw pre key x post e).
Qed.

Lemma decode_elements_Forall2 (xs ys : list (option value)) :
  decode_elements xs = Ok ys
  <-> Forall2 (holes_or (fun x y => decode x = Ok y)) xs ys.
Proof.
  revert ys. induction xs as [|[x|] xs IH]; intros ys.
  - split; [intros [= <-]; constructor | intros H; now inversion H].
  - rewrite decode_elements_cons. split.
    + destruct (decode x) as [y| |] eqn:Hy; try discriminate.
      * intros H. apply bind_ok in H as (ys' & Hys & [= <-]).
        constructor; [exact Hy | now apply IH].
      * intros H. now apply after_exotic_ok in H.
    + intros H. inversion H as [|? [y|] ? ys' Hy Hys]; subst;
        simpl in Hy; [|contradiction].
      apply IH in Hys. now rewrite Hy, Hys.
  - rewrite decode_elements_hole. split.
    + intros H. apply bind_ok in H as (ys' & Hys & [= <-]).
      constructor; [exact I | now apply IH].
    + intros H. inversion H as [|? [y|] ? ys' Hy Hys]; subst;
        simpl in Hy; [contradiction|].
      apply IH in Hys. now rewrite Hys.
Qed.

Lemma decode_properties_Forall2 (kvs out : list (string * value)) :
  no_proto_key kvs ->
  decode_properties kvs = Ok out <->
  Forall2 (fun kv o => fst o = fst kv /\ decode (snd kv) = Ok (snd o)) kvs out.
Proof.
  intros Hkeys. revert out.
  induction Hkeys as [|[key x] kvs Hkey _ IH]; intros out.
  - split; [intros [= <-]; constructor | intros H; now inversion H].
  - rewrite decode_properties_cons. simpl in Hkey. split.
    + destruct (decode x) as [y| |] eqn:Hy; try discriminate.
      * rewrite assign_other by assumption.
        intros H. apply bind_ok in H as (out' & Hout & [= <-]).
        constructor; [now split | now apply IH].
      * intros H. now apply after_exotic_ok in H.
    + intros H. inversion H as [|? [key' y] ? out' [Hk Hy] Hout]; subst.
      simpl in Hk, Hy. subst key'.
      apply IH in Hout. now rewrite Hy, assign_other, Hout.
Qed.

(** X7: [decode] keeps the structure: an array decodes to an array of
    the same length whose elements are the decoded elements, index by
    index, with a hole where the input has one, and an object without
    an own key ["__proto__"] decodes to an object with the same keys in
    the same order, each with its decoded value; it returns such a
    result exactly when every element, or every value, decodes. *)
Theorem decode_array_object :
  (forall xs w,
      decode (VArray xs) = Ok w <->
      exists ys,
        w = VArray ys
        /\ Forall2 (holes_or (fun x y => decode x = Ok y)) xs ys)
  /\ (forall kvs w,
      no_proto_key kvs ->
      (decode (VObject kvs) = Ok w <->
       exists out,
         w = VObject out
         /\ Forall2 (fun kv o => fst o = fst kv
                                 /\ decode (snd kv) = Ok (snd o)) kvs out)).
Proof.
  split.
  - intros xs w. rewrite decode_array. split.
    + intros H. apply bind_ok in H as (ys & Hys & [= <-]).
      exists ys. split; [reflexivity | now apply decode_elements_Forall2].
    + intros (ys & -> & H). apply decode_elements_Forall2 in H.
      now rewrite H.
  - intros kvs w Hkeys. rewrite decode_object. split.
    + intros H. apply bind_ok in H as (out & Hout & [= <-]).
      exists out. split; [reflexivity | now apply decode_properties_Forall2].
    + intros (out & -> & H). apply decode_properties_Forall2 in H;
        [|assumption].
      now rewrite H.
Qed.

(** The results of the Buffer branch of [decode]. *)
Lemma decode_buffer_cases (d : list byte) (w : value) :
  decode (VBuffer d) = Ok w ->
  d = NIL_TF /\ w = VNull
  \/ (exists b, firstn 3 d = encoder_boolean generic boolean b
                /\ w = VBoolean b)
  \/ (exists s, w = VString s).
Proof.
  change (decode (VBuffer d)) with (decode_buffer d). unfold decode_buffer.
  destruct (Nat.ltb (List.length d) 2) eqn:Elen; [discriminate|].
  destruct (equals d NIL_TF) eqn:Enil.
  { intros [= <-]. left. now apply equals_eq in Enil. }
  destruct (equals (slice d 0 2) BOOL_TF) eqn:Ebool.
  { apply equals_eq in Ebool. unfold decoder_bool. simpl gt. cbv iota.
    destruct d as [|a [|b [|c rest]]]; try discriminate.
    unfold slice in *. simpl in *. rewrite !andb_true_r.
    injection Ebool as -> ->.
    destruct (Byte.eqb c x00) eqn:E0.
    - apply Byte.byte_dec_bl in E0 as ->. intros [= <-].
      right. left. now exists false.
    - destruct (Byte.eqb c x01) eqn:E1; [|discriminate].
      apply Byte.byte_dec_bl in E1 as ->. intros [= <-].
      right. left. now exists true. }
  destruct (equals (slice d 0 2) STRING_TF).
  { intros [= <-]. right. right. eauto. }
  destruct (find _ TYPES) as [type|]; [|discriminate].
  destruct (find _ (t_formats type)) as [format|]; [|discriminate].
  destruct (truthy (t_sigil type) || truthy (f_suffix format));
    [|discriminate].
  intros [= <-]. right. right. eauto.
Qed.

Lemma decode_elements_decoded (xs : list (option value)) :
  Forall (present (fun x => forall w, decode x = Ok w -> decoded w)) xs ->
  forall ys, decode_elements xs = Ok ys -> Forall (present decoded) ys.
Proof.
  induction 1 as [|o xs Ho _ IH]; intros ys.
  - intros [= <-]. constructor.
  - destruct Ho as [|x Hx].
    + rewrite decode_elements_hole. intros H.
      apply bind_ok in H as (ys' & Hys & [= <-]).
      constructor; [constructor | now apply IH].
    + rewrite decode_elements_cons.
      destruct (decode x) as [y| |] eqn:Hy; try discriminate.
      * intros H. apply bind_ok in H as (ys' & Hys & [= <-]).
        constructor; [constructor; now apply Hx | now apply IH].
      * intros H. now apply after_exotic_ok in H.
Qed.

Lemma decode_properties_decoded (kvs : list (string * value)) :
  Forall (fun kv => forall w, decode (snd kv) = Ok w -> decoded w) kvs ->
  forall out, decode_properties kvs = Ok out ->
              Forall (fun kv => decoded (snd kv)) out.
Proof.
  induction 1 as [|[key x] kvs Hx _ IH]; intros out.
  - intros [= <-]. constructor.
  - rewrite decode_properties_cons. simpl in Hx.
    destruct (decode x) as [y| |] eqn:Hy; try discriminate.
    + intros H. apply assign_ok in H
        as [(_ & _ & H)|(Hkey & out' & Hout & ->)]; [now apply IH|].
      constructor; [now apply Hx | now apply IH].
    + intros H. now apply after_exotic_ok in H.
Qed.

(** X8: whatever [decode] returns is made of null, integers, booleans
    and strings, in arrays and objects: no Buffer and no [undefined] is
    left in the output. *)
Theorem decode_output_decoded (v w : value) :
  decode v = Ok w -> decoded w.
Proof.
  revert w. induction v as [ | | b | n | s | d | xs IH | kvs IH | | ]
    using value_nested_ind; intros w; try discriminate.
  - intros [= <-]. constructor.
  - intros [= <-]. constructor.
  - intros H. apply decode_buffer_cases in H
      as [[_ ->]|[(b & _ & ->)|(s & ->)]]; constructor.
  - rewrite decode_array. intros H.
    apply bind_ok in H as (ys & Hys & [= <-]).
    constructor. now apply (decode_elements_decoded xs).
  - rewrite decode_object. intros H.
    apply bind_ok in H as (out & Hout & [= <-]).
    constructor. now apply (decode_properties_decoded kvs).
Qed.

(** X9: bytes do not survive the codec: [encode] returns a Buffer as it
    is, and when [decode] accepts it the result is null, a boolean or a
    string. *)
Theorem decode_encode_buffer (d : list byte) (w : value) :
  (x <- encode (VBuffer d) ;; decode x) = Ok w ->
  w = VNull \/ (exists b, w = VBoolean b) \/ (exists s, w = VString s).
Proof.
  simpl bind. intros H. apply decode_buffer_cases in H
    as [[_ ->]|[(b & _ & ->)|(s & ->)]]; eauto.
Qed.

(** X10: [decode] of a Buffer is null for the nil tag and for no other
    Buffer. *)
Theorem decode_null_iff (d : list byte) :
  decode (VBuffer d) = Ok VNull <-> d = NIL_TF.
Proof.
  split.
  - intros H. apply decode_buffer_cases in H
      as [[-> _]|[(b & _ & [=])|(s & [=])]]. reflexivity.
  - intros ->. simpl. unfold decode_buffer. now rewrite equals_refl.
Qed.

(** X11: [decode] of a Buffer is the boolean [b] exactly when the Buffer
    starts with the three bytes [encode] gives for [b]; what follows
    these bytes is not looked at. *)
Theorem decode_boolean_iff (d : list byte) (b : bool) :
  decode (VBuffer d) = Ok (VBoolean b)
  <-> firstn 3 d = encoder_boolean generic boolean b.
Proof.
  split.
  - intros H. apply decode_buffer_cases in H
      as [[_ [=]]|[(b' & Hd & [= ->])|(s & [=])]]. assumption.
  - intros Hd.
    destruct b; destruct d as [|a0 [|a1 [|a2 rest]]]; try discriminate;
      simpl in Hd; injection Hd as -> -> ->;
      simpl; unfold decode_buffer; simpl;
      rewrite !Byte.byte_dec_lb by reflexivity; simpl;
      rewrite ?andb_false_r; simpl;
      rewrite !Byte.byte_dec_lb by reflexivity; reflexivity.
Qed.

(** X12: a Buffer that starts with the boolean tag, is not the nil tag
    and does not start with the encoding of [true] or of [false] is an
    invalid boolean: the payload is missing, or its first byte is
    neither 0 nor 1. *)
Theorem decode_boolean_invalid (d : list byte) :
  firstn 2 d = BOOL_TF ->
  d <> NIL_TF ->
  (forall b, firstn 3 d <> encoder_boolean generic boolean b) ->
  decode (VBuffer d) = Throw InvalidBoolean.
Proof.
  intros Htag Hnil Hb.
  destruct d as [|a0 [|a1 rest]]; try discriminate.
  injection Htag as -> ->.
  change (decode (VBuffer (t_code generic :: f_code boolean :: rest)))
    with (decode_buffer (t_code generic :: f_code boolean :: rest)).
  unfold decode_buffer. rewrite (equals_neq _ _ Hnil).
  change (slice (t_code generic :: f_code boolean :: rest) 0 2) with BOOL_TF.
  rewrite equals_refl. simpl Nat.ltb. cbv iota.
  unfold decoder_bool. simpl gt. cbv iota.
  change (slice (t_code generic :: f_code boolean :: rest) 2 3)
    with (firstn 1 rest).
  destruct rest as [|c rest]; [reflexivity|].
  simpl firstn. unfold BOOL_FALSE, BOOL_TRUE. rewrite !equals_singleton.
  destruct (Byte.eqb c x00) eqn:E0.
  { apply Byte.byte_dec_bl in E0 as ->. now elim (Hb false). }
  destruct (Byte.eqb c x01) eqn:E1.
  { apply Byte.byte_dec_bl in E1 as ->. now elim (Hb true). }
  reflexivity.
Qed.

Lemma decode_buffer_string (payload : list byte) :
  STRING_TF ++ payload <> NIL_TF ->
  f_code UTF8_string <> f_code boolean ->
  decode (VBuffer (STRING_TF ++ payload))
  = Ok (VString (utf8_decode payload)).
Proof.
  intros Hnil Hbool.
  change (decode (VBuffer (STRING_TF ++ payload)))
    with (decode_buffer (STRING_TF ++ payload)).
  unfold decode_buffer. rewrite (equals_neq _ _ Hnil).
  change (slice (STRING_TF ++ payload) 0 2) with STRING_TF.
  rewrite equals_refl, equals_neq; [reflexivity|].
  intros [= E]. contradiction.
Qed.

(** X13: a Buffer that starts with the string tag decodes to the UTF8
    text of everything after the tag, when it is not the nil tag itself
    and the string tag is not the boolean tag, the two tests [decode]
    makes first. *)
Theorem decode_string_tag (d : list byte) :
  firstn 2 d = STRING_TF ->
  d <> NIL_TF ->
  f_code UTF8_string <> f_code boolean ->
  decode (VBuffer d) = Ok (VString (utf8_decode (skipn 2 d))).
Proof.
  intros Htag Hnil Hbool.
  destruct d as [|a0 [|a1 rest]]; try discriminate.
  injection Htag as -> ->. now apply decode_buffer_string.
Qed.

(** The registry branch of [decode] on the tag of a type with a sigil. *)
Lemma decode_classic_buffer
    (type : BFEType) (format : BFEFormat) (payload : list byte) :
  registry_ok ->
  In type TYPES -> In format (t_formats type) ->
  truthy (t_sigil type) = true ->
  decode (VBuffer (t_code type :: f_code format :: payload))
  = Ok (VString (or_empty (t_sigil type) ++ base64_encode payload
                 ++ or_empty (f_suffix format))%string).
Proof.
  intros [Htypes Hformats Hgeneric _ _ _ Hnosigil _] Htype Hformat Hsigil.
  assert (Hcode : t_code type <> t_code generic).
  { intros Heq. apply (NoDup_map_eq t_code TYPES) in Heq; auto.
    rewrite Heq, Hnosigil in Hsigil. discriminate. }
  rewrite decode_buffer_lookup; try (intros [= E]; now apply Hcode).
  rewrite (find_pointwise _ (fun t => equals [t_code t] [t_code type]))
    by (intros; symmetry; apply equals_singleton).
  rewrite (find_unique t_code TYPES type) by auto.
  rewrite (find_pointwise _ (fun f => equals [f_code f] [f_code format]))
    by (intros; symmetry; apply equals_singleton).
  rewrite (find_unique f_code (t_formats type) format) by auto.
  now rewrite Hsigil.
Qed.

Lemma decode_nil_buffer : decode (VBuffer NIL_TF) = Ok VNull.
Proof. simpl. unfold decode_buffer. now rewrite equals_refl. Qed.

Lemma canonical_elements (xs : list (option value)) :
  Forall (present (fun x => codec_value x ->
                            exists w, encode x = Ok w
                                      /\ decode w = Ok (canonical x)))
         xs ->
  Forall (present (fun x => x = VUndefined \/ codec_value x)) xs ->
  exists ys,
    encode_elements xs = Ok ys
    /\ decode_elements ys
       = Ok (map (option_map
                    (fun x => if is_undefined x then VNull else canonical x))
                 xs).
Proof.
  induction 1 as [|o xs Ho _ IH]; intros Hxs.
  - exists []. split; reflexivity.
  - inversion Hxs as [|? ? Hcv Hcvs]; subst.
    destruct (IH Hcvs) as (ys & Hys & Hd).
    destruct Ho as [|x Hx].
    + exists (None :: ys). rewrite encode_elements_hole, Hys.
      split; [reflexivity|]. now rewrite decode_elements_hole, Hd.
    + inversion Hcv as [|? [->|Hcv']]; subst.
      * exists (Some (VBuffer NIL_TF) :: ys). split.
        -- rewrite encode_elements_cons. simpl. now rewrite Hys.
        -- now rewrite decode_elements_cons, decode_nil_buffer, Hd.
      * destruct (Hx Hcv') as (w & Hw & Hdw).
        assert (is_undefined w = false) as Ew
          by (destruct w; try reflexivity; discriminate).
        assert (is_undefined x = false) as Ex
          by (destruct Hcv'; reflexivity).
        exists (Some w :: ys). split.
        -- rewrite encode_elements_cons, Hw, Hys. simpl. now rewrite Ew.
        -- rewrite decode_elements_cons, Hdw, Hd. simpl. now rewrite Ex.
Qed.

Lemma canonical_object (kvs : list (string * value)) :
  canonical (VObject kvs) = VObject (canonical_properties kvs).
Proof. reflexivity. Qed.

Lemma canonical_object_properties (kvs : list (string * value)) :
  no_proto_key kvs ->
  Forall (fun kv => codec_value (snd kv) ->
                    exists w, encode (snd kv) = Ok w
                              /\ decode w = Ok (canonical (snd kv))) kvs ->
  Forall (fun kv => snd kv = VUndefined \/ codec_value (snd kv)) kvs ->
  exists out,
    encode_properties kvs = Ok out
    /\ decode_properties out = Ok (canonical_properties kvs).
Proof.
  intros Hkeys H.
  induction H as [|[key x] kvs Hx _ IH]; intros Hkvs.
  - exists []. split; reflexivity.
  - inversion Hkvs as [|? ? Hcv Hcvs]; subst. simpl in Hx, Hcv.
    inversion Hkeys as [|? ? Hkey Hkeys']; subst. simpl in Hkey.
    destruct (IH Hkeys' Hcvs) as (out & Hout & Hd).
    rewrite encode_properties_cons. destruct Hcv as [->|Hcv].
    + exists out. split; [simpl; now rewrite Hout | exact Hd].
    + destruct (Hx Hcv) as (w & Hw & Hdw).
      assert (is_undefined w = false) as Ew
        by (destruct w; try reflexivity; discriminate).
      assert (is_undefined x = false) as Ex
        by (destruct Hcv; reflexivity).
      exists ((key, w) :: out). split.
      * now rewrite Hw, Hout, Ew, assign_other.
      * rewrite decode_properties_cons, Hdw, Hd, assign_other by assumption.
        simpl. now rewrite Ex.
Qed.


(** X15: [encode] turns null, every boolean and every string for which
    the matcher does not report a type without a format into a Buffer
    of at least two bytes, so that [decode] never finds the tag of an
    encoded leaf missing. *)
Theorem encode_leaf_tagged (v : value) :
  v = VNull
  \/ (exists b, v = VBoolean b)
  \/ (exists s, v = VString s
                /\ forall type,
                    findClassicTypeFormat s TYPES <> (Some type, None)) ->
  exists d, encode v = Ok (VBuffer d) /\ 2 <= List.length d
            /\ decode (VBuffer d) <> Throw MalformedTag.
Proof.
  assert (Htag : forall b0 b1 rest,
             decode (VBuffer (b0 :: b1 :: rest)) <> Throw MalformedTag).
  { intros b0 b1 rest.
    change (decode (VBuffer (b0 :: b1 :: rest)))
      with (decode_buffer (b0 :: b1 :: rest)).
    unfold decode_buffer. simpl Nat.ltb. cbv iota.
    destruct (equals _ NIL_TF); [discriminate|].
    destruct (equals _ BOOL_TF).
    { unfold decoder_bool. simpl gt. cbv iota.
      repeat (destruct (equals _ _); [discriminate|]). discriminate. }
    destruct (equals _ STRING_TF); [discriminate|].
    destruct (find _ TYPES) as [type|]; [|discriminate].
    destruct (find _ (t_formats type)) as [format|]; [|discriminate].
    destruct (_ || _); discriminate. }
  intros [->|[[b ->]|(s & -> & Hfind)]].
  - eexists. split; [reflexivity|]. split; [apply le_n | apply Htag].
  - eexists. split; [reflexivity|]. split; [simpl; lia | apply Htag].
  - simpl.
    destruct (findClassicTypeFormat s TYPES) as [[type|] [format|]];
      try (now elim (Hfind type));
      eexists; (split; [reflexivity|]);
      (split; [simpl; lia | apply Htag]).
Qed.

(** X16: on the nil tag and on the three-byte booleans [encode] undoes
    [decode]: when a Buffer of at most three bytes decodes to null or
    to a boolean, encoding the result gives the Buffer back. *)
Theorem encode_decode_primitive (d : list byte) (w : value) :
  decode (VBuffer d) = Ok w ->
  List.length d <= 3 ->
  w = VNull \/ (exists b, w = VBoolean b) ->
  encode w = Ok (VBuffer d).
Proof.
  intros Hd Hlen Hw.
  apply decode_buffer_cases in Hd as [[-> ->]|[(b & Hb & ->)|(s & ->)]].
  - reflexivity.
  - rewrite firstn_all2 in Hb by assumption. now rewrite Hb.
  - destruct Hw as [[=]|[b [=]]].
Qed.

End Codec.

(** ** The matcher of the spec *)

Lemma substring_0_0 (s : string) : substring 0 0 s = "".
Proof. now destruct s. Qed.

Lemma substring_split (s : string) (n : nat) :
  n <= String.length s ->
  s = (substring 0 n s ++ substring n (String.length s - n) s)%string.
Proof.
  revert n. induction s as [|c s IH]; intros [|n] Hn; simpl in *;
    try reflexivity; try lia.
  - now rewrite substring_all.
  - f_equal. apply IH. lia.
Qed.

Lemma prefix_split (a s : string) :
  prefix a s = true -> s = (a ++ string_slice s (String.length a))%string.
Proof.
  intros H. apply prefix_correct in H. unfold string_slice.
  destruct (Nat.le_gt_cases (String.length a) (String.length s)) as [Hle|Hgt].
  - etransitivity; [apply (substring_split s (String.length a) Hle)|].
    now rewrite H.
  - exfalso. assert (String.length (substring 0 (String.length a) s)
                     = String.length a) as E by now rewrite H.
    revert E Hgt. generalize (String.length a). clear.
    induction s as [|c s IH]; intros [|n]; simpl; try lia.
    intros [= E] Hgt. apply (IH n); [assumption | lia].
Qed.

Lemma endsWith_split (s x : string) :
  Util.endsWith s x = true ->
  s = (string_slice_end s (String.length x) ++ x)%string.
Proof.
  unfold Util.endsWith, string_slice_end.
  rewrite andb_true_iff, Nat.leb_le, String.eqb_eq. intros [Hle Hx].
  assert (Hn : String.length s - String.length x <= String.length s) by lia.
  pose proof (substring_split s _ Hn) as E.
  replace (String.length s - (String.length s - String.length x))
    with (String.length x) in E by lia.
  now rewrite Hx in E.
Qed.

(** The matcher of the spec reports entries of the table, of a type
    with a sigil. *)
Lemma findClassicTypeFormat_sound (types : list BFEType) :
  matcher_sound types Util.findClassicTypeFormat.
Proof.
  intros s type format. unfold Util.findClassicTypeFormat.
  destruct (find _ types) as [type'|] eqn:Etype; [|discriminate].
  intros [= -> Eformat].
  apply find_some in Etype as [Htype Hsigil].
  apply find_some in Eformat as [Hformat _].
  apply andb_true_iff in Hsigil as [Hsigil _]. auto.
Qed.

(** Whenever it reports a type and a format, the string is the sigil,
    a payload and the suffix. *)
Lemma findClassicTypeFormat_payload
    (types : list BFEType) (s : string) (type : BFEType) (format : BFEFormat) :
  Util.findClassicTypeFormat s types = (Some type, Some format) ->
  exists payload,
    s = (or_empty (t_sigil type) ++ payload
         ++ or_empty (f_suffix format))%string.
Proof.
  unfold Util.findClassicTypeFormat.
  destruct (find _ types) as [type'|] eqn:Etype; [|discriminate].
  intros [= -> Eformat].
  apply find_some in Etype as [_ Hsigil].
  apply find_some in Eformat as [_ Hsuffix].
  apply andb_true_iff in Hsigil as [_ Hsigil].
  apply andb_true_iff in Hsuffix as [_ Hsuffix].
  apply prefix_split in Hsigil. apply endsWith_split in Hsuffix.
  eexists. rewrite Hsigil at 1. now rewrite Hsuffix at 1.
Qed.

(** ** The sample registry *)

Lemma sample_registry_ok :
  registry_ok Sample.TYPES Sample.generic Sample.UTF8_string Sample.boolean
    Sample.nil_format.
Proof.
  constructor; simpl; auto.
  - repeat constructor; simpl; intuition discriminate.
  - intros type [<-|[<-|[]]]; repeat constructor; simpl; intuition discriminate.
Qed.

Lemma sample_sigils_one_char : sigils_one_char Sample.TYPES.
Proof. intros type [<-|[<-|[]]]; simpl; lia. Qed.

(** ** The codec on the sample registry *)

(** The test [01-msg.js]: the two identifiers encode to buffers that
    start with [1, 0] and [1, 4], and decoding gives them back. *)
Example test_01_msg :
  exists classic bendy,
    Sample.encode (VArray [Some (VString Sample.classic_id);
                           Some (VString Sample.bendybutt_id)])
    = Ok (VArray [Some (VBuffer classic); Some (VBuffer bendy)])
    /\ firstn 2 classic = [x01; x00]
    /\ firstn 2 bendy = [x01; x04]
    /\ Sample.decode (VArray [Some (VBuffer classic); Some (VBuffer bendy)])
       = Ok (VArray [Some (VString Sample.classic_id);
                     Some (VString Sample.bendybutt_id)]).
Proof. do 2 eexists. repeat split; vm_compute; reflexivity. Qed.

Example decode_unknown_tag :
  Sample.decode (VBuffer [xff; x00; x2a]) = Throw UnknownTag.
Proof. reflexivity. Qed.

Example decode_unknown_format :
  Sample.decode (VBuffer [x01; x09; x2a]) = Throw (UnknownFormat "msg").
Proof. reflexivity. Qed.

Example decode_boolean_four_bytes :
  Sample.decode (VBuffer [x06; x01; x00; x07]) = Ok (VBoolean false).
Proof. reflexivity. Qed.

(** A recognized string whose payload is not what the base64 encoder
    prints comes back with the padding added. *)
Example decode_encode_unpadded :
  Sample.encode (VString "%abc.sha256")
  = Ok (VBuffer [x01; x00; x69; xb7])
  /\ Sample.decode (VBuffer [x01; x00; x69; xb7])
     = Ok (VString "%abc=.sha256").
Proof. split; reflexivity. Qed.

(** An object with an own key ["__proto__"] does not come back: the
    key is lost in [encode], and in [decode] as well. *)
Example decode_encode_proto_key :
  Sample.encode (VObject [("__proto__", VInteger 5); ("a", VInteger 1)])
  = Ok (VObject [("a", VInteger 1)])
  /\ Sample.decode (VObject [("__proto__", VInteger 5); ("a", VInteger 1)])
     = Ok (VObject [("a", VInteger 1)])
  /\ Sample.decode (VObject [("__proto__", VNull); ("a", VInteger 1)])
     = Exotic.
Proof. repeat split. Qed.

(** A symbol makes both functions throw a TypeError, raised while the
    message of the error they meant to throw is put together. *)
Example encode_decode_symbol :
  Sample.encode VSymbol = Throw TypeError
  /\ Sample.decode VSymbol = Throw TypeError.
Proof. split; reflexivity. Qed.

(** C1 fails on bytes: [encode] returns a buffer as it is and [decode]
    reads it as a tagged buffer, so the empty buffer comes back as an
    error and the three bytes of an encoded [true] as a boolean. *)
Lemma decode_encode_buffer_counterexample :
  ~ (exists w, Sample.encode (VBuffer []) = Ok w
               /\ Sample.decode w = Ok (VBuffer []))
  /\ ~ (exists w, Sample.encode (VBuffer [x06; x01; x01]) = Ok w
                  /\ Sample.decode w = Ok (VBuffer [x06; x01; x01])).
Proof.
  split; intros (w & Hw & Hd); injection Hw as <-; discriminate Hd.
Qed.

Lemma decode_encode_witness :
  let v :=
    VObject [("ids", VArray [Some (VString Sample.classic_id);
                             Some (VString Sample.bendybutt_id)]);
             ("text", VString "hello");
             ("seq", VInteger 3);
             ("ok", VBoolean true);
             ("none", VNull)] in
  roundtrip_value Sample.TYPES Util.findClassicTypeFormat
    Node.utf8_encode Node.utf8_decode Node.base64_decode Node.base64_encode v
  /\ exists w, Sample.encode v = Ok w /\ Sample.decode w = Ok v.
Proof.
  intros v.
  assert (Hv : roundtrip_value Sample.TYPES Util.findClassicTypeFormat
                 Node.utf8_encode Node.utf8_decode
                 Node.base64_decode Node.base64_encode v).
  { apply rv_object.
    - repeat apply Forall_cons; try apply Forall_nil; discriminate.
    - repeat apply Forall_cons; try apply Forall_nil; simpl.
      + apply rv_array.
        repeat apply Forall_cons; try apply Forall_nil; apply present_element.
        * apply (rv_classic _ _ _ _ _ _ _ Sample.msg Sample.classic
                   Sample.payload_id); reflexivity.
        * apply (rv_classic _ _ _ _ _ _ _ Sample.msg Sample.bendybutt
                   Sample.payload_id); reflexivity.
      + apply rv_plain; reflexivity.
      + apply rv_integer.
      + apply rv_boolean.
      + apply rv_null. }
  split; [exact Hv|].
  exact (decode_encode Sample.TYPES Sample.generic Sample.UTF8_string
           Sample.boolean Sample.nil_format Util.findClassicTypeFormat
           Node.utf8_encode Node.utf8_decode Node.base64_decode
           Node.base64_encode v sample_registry_ok sample_sigils_one_char
           (findClassicTypeFormat_sound Sample.TYPES) Hv).
Defined.

Lemma decode_short_buffer_witness :
  List.length [x06] < 2 /\ Sample.decode (VBuffer [x06]) = Throw MalformedTag.
Proof.
  split; [apply le_n|].
  exact (decode_short_buffer Sample.TYPES Sample.generic Sample.UTF8_string
           Sample.boolean Sample.nil_format Node.utf8_decode
           Node.base64_encode [x06] (le_n 2)).
Defined.

(** C3 fails for a sigil of two characters: the matcher reports the
    type and the format of ["abQUJD.x"], whose payload between sigil
    and suffix is ["QUJD"], and [encode] hands ["bQUJD"] to the base64
    decoder, [slice(1)] having removed one character. *)
Lemma encode_string_counterexample :
  Util.findClassicTypeFormat "abQUJD.x" TwoChar.TYPES
  = (Some TwoChar.ab, Some TwoChar.x_format)
  /\ "abQUJD.x"
     = (or_empty (t_sigil TwoChar.ab) ++ "QUJD"
        ++ or_empty (f_suffix TwoChar.x_format))%string
  /\ TwoChar.encode (VString "abQUJD.x")
     = Ok (VBuffer (x07 :: x00 :: Node.base64_decode "bQUJD"))
  /\ TwoChar.encode (VString "abQUJD.x")
     <> Ok (VBuffer (x07 :: x00 :: Node.base64_decode "QUJD")).
Proof. repeat split. discriminate. Qed.

Lemma encode_string_witness :
  Sample.encode (VString Sample.classic_id)
  = Ok (VBuffer (x01 :: x00 :: Node.base64_decode Sample.payload_id))
  /\ Sample.encode (VString "%abc") = Throw (UnknownFormat "msg")
  /\ Sample.encode (VString "hello")
     = Ok (VBuffer (x06 :: x00 :: Node.utf8_encode "hello")).
Proof.
  pose (thm := encode_string Sample.TYPES Sample.generic Sample.UTF8_string
                 Sample.boolean Sample.nil_format Util.findClassicTypeFormat
                 Node.utf8_encode Node.base64_decode).
  split; [|split].
  - exact (proj1 (thm Sample.classic_id) Sample.msg Sample.classic
             Sample.payload_id eq_refl (le_n 1) eq_refl).
  - exact (proj1 (proj2 (thm "%abc")) Sample.msg eq_refl).
  - exact (proj2 (proj2 (thm "hello")) eq_refl).
Defined.

Lemma decode_tagged_buffer_witness :
  let d := [x01; x04; x1d; x95; x67] in
  2 <= List.length d
  /\ d <> NIL_TF Sample.generic Sample.nil_format
  /\ firstn 2 d <> BOOL_TF Sample.generic Sample.boolean
  /\ firstn 2 d <> STRING_TF Sample.generic Sample.UTF8_string
  /\ Sample.decode (VBuffer d) = Ok (VString "%HZVn.bbmsg-v1").
Proof.
  intros d.
  assert (H1 : 2 <= List.length d) by (simpl; lia).
  assert (H2 : d <> NIL_TF Sample.generic Sample.nil_format) by discriminate.
  assert (H3 : firstn 2 d <> BOOL_TF Sample.generic Sample.boolean)
    by discriminate.
  assert (H4 : firstn 2 d <> STRING_TF Sample.generic Sample.UTF8_string)
    by discriminate.
  refine (conj H1 (conj H2 (conj H3 (conj H4 _)))).
  exact (decode_tagged_buffer Sample.TYPES Sample.generic Sample.UTF8_string
           Sample.boolean Sample.nil_format Node.utf8_decode
           Node.base64_encode d H1 H2 H3 H4).
Defined.

Lemma decode_nil_tag_with_payload_witness :
  let d := [x06; x02; x00] in
  2 < List.length d
  /\ firstn 2 d = NIL_TF Sample.generic Sample.nil_format
  /\ Sample.decode (VBuffer d) = Throw (NoDecoder "generic" "nil").
Proof.
  intros d. refine (conj (le_n 3) (conj eq_refl _)).
  exact (decode_nil_tag_with_payload Sample.TYPES Sample.generic
           Sample.UTF8_string Sample.boolean Sample.nil_format
           Node.utf8_decode Node.base64_encode d sample_registry_ok
           (le_n 3) eq_refl).
Defined.

(** C5 fails on a sparse array and on an own key ["__proto__"]: the
    hole at index 1 is still a hole of the output, where the claim has
    the nil tag and no hole, and the key ["__proto__"], whose value
    encodes to the integer 5, is not a key of the output. *)
Lemma encode_array_object_counterexample :
  Sample.encode (VArray [Some (VInteger 1); None; Some (VInteger 3)])
  = Ok (VArray [Some (VInteger 1); None; Some (VInteger 3)])
  /\ Sample.encode (VInteger 5) = Ok (VInteger 5)
  /\ Sample.encode (VObject [("__proto__", VInteger 5); ("a", VInteger 1)])
     = Ok (VObject [("a", VInteger 1)]).
Proof. repeat split. Qed.

Lemma encode_array_object_witness :
  (exists out,
      Sample.encode (VArray [Some (VBoolean true); Some VUndefined; None;
                             Some (VInteger 7)])
      = Ok (VArray out)
      /\ List.length out = 4
      /\ nth_error out 1 = Some (Some (VBuffer [x06; x02]))
      /\ nth_error out 2 = Some None
      /\ ~ In (Some VUndefined) out)
  /\ no_proto_key [("a", VUndefined); ("b", VNull); ("c", VInteger 7)]
  /\ Sample.encode (VObject [("a", VUndefined); ("b", VNull); ("c", VInteger 7)])
     = Ok (VObject [("b", VBuffer [x06; x02]); ("c", VInteger 7)]).
Proof.
  pose (thm := encode_array_object Sample.TYPES Sample.generic
                 Sample.UTF8_string Sample.boolean Sample.nil_format
                 Util.findClassicTypeFormat Node.utf8_encode
                 Node.base64_decode).
  assert (Hkeys : no_proto_key
                    [("a", VUndefined); ("b", VNull); ("c", VInteger 7)])
    by (repeat apply Forall_cons; try apply Forall_nil; discriminate).
  split; [|split; [exact Hkeys|]].
  - destruct (proj1 thm [Some (VBoolean true); Some VUndefined; None;
                         Some (VInteger 7)]
                [Some (VBuffer [x06; x01; x01]); Some VUndefined; None;
                 Some (VInteger 7)])
      as (out & Hout & Hlen & Hnth & Hhole & Hin).
    { repeat apply Forall2_cons; try apply Forall2_nil;
        first [reflexivity | exact I]. }
    exists out. refine (conj Hout (conj Hlen (conj _ (conj _ Hin)))).
    + exact (Hnth 1 VUndefined eq_refl).
    + exact (proj2 (Hhole 2) eq_refl).
  - apply (proj2 thm [("a", VUndefined); ("b", VNull); ("c", VInteger 7)]
             [VUndefined; VBuffer [x06; x02]; VInteger 7] Hkeys).
    repeat apply Forall2_cons; try apply Forall2_nil; reflexivity.
Defined.

Lemma encode_idempotent_witness :
  let v := VArray [Some (VBoolean true); Some VUndefined; None;
                   Some (VObject [("a", VUndefined);
                                  ("b", VString "hello")])] in
  let w := VArray [Some (VBuffer [x06; x01; x01]); Some (VBuffer [x06; x02]);
                   None;
                   Some (VObject [("b", VBuffer (x06 :: x00
                                            :: Node.utf8_encode "hello"))])] in
  Sample.encode v = Ok w /\ Sample.encode w = Ok w.
Proof.
  intros v w. split; [reflexivity|].
  exact (encode_idempotent Sample.TYPES Sample.generic Sample.UTF8_string
           Sample.boolean Sample.nil_format Util.findClassicTypeFormat
           Node.utf8_encode Node.base64_decode v w eq_refl).
Defined.

(** ** The further properties on the sample registry *)

Lemma encode_output_encoded_witness :
  let v := VArray [Some VNull; Some VUndefined; None; Some (VString "hi")] in
  let w := VArray [Some (VBuffer [x06; x02]); Some (VBuffer [x06; x02]); None;
                   Some (VBuffer (x06 :: x00 :: Node.utf8_encode "hi"))] in
  Sample.encode v = Ok w /\ (v = VUndefined /\ w = VUndefined \/ encoded w).
Proof.
  intros v w. split; [reflexivity|].
  exact (encode_output_encoded Sample.TYPES Sample.generic Sample.UTF8_string
           Sample.boolean Sample.nil_format Util.findClassicTypeFormat
           Node.utf8_encode Node.base64_decode v w eq_refl).
Defined.

Lemma encode_encoded_witness :
  let v := VArray [Some (VBuffer [x01]); None;
                   Some (VObject [("a", VInteger 1)])] in
  encoded v /\ Sample.encode v = Ok v.
Proof.
  intros v.
  assert (Hv : encoded v).
  { apply encoded_array. repeat apply Forall_cons; try apply Forall_nil.
    - apply present_element, encoded_buffer.
    - apply present_hole.
    - apply present_element, encoded_object.
      + repeat apply Forall_cons; try apply Forall_nil. discriminate.
      + repeat apply Forall_cons; try apply Forall_nil.
        apply encoded_integer. }
  split; [exact Hv|].
  exact (encode_encoded Sample.TYPES Sample.generic Sample.UTF8_string
           Sample.boolean Sample.nil_format Util.findClassicTypeFormat
           Node.utf8_encode Node.base64_decode v Hv).
Defined.

Lemma encode_succeeds_iff_witness :
  let v := VArray [Some (VString "hello"); Some VUndefined; None;
                   Some (VObject [("__proto__", VNull)])] in
  encodable Sample.TYPES Util.findClassicTypeFormat v
  /\ returns (Sample.encode v).
Proof.
  intros v.
  assert (Hv : encodable Sample.TYPES Util.findClassicTypeFormat v).
  { apply encodable_array. repeat apply Forall_cons; try apply Forall_nil.
    - apply present_element, encodable_string. intros type H. discriminate H.
    - apply present_element, encodable_undefined.
    - apply present_hole.
    - apply present_element, encodable_object.
      repeat apply Forall_cons; try apply Forall_nil. apply encodable_null. }
  split; [exact Hv|].
  exact (proj2 (encode_succeeds_iff Sample.TYPES Sample.generic
                  Sample.UTF8_string Sample.boolean Sample.nil_format
                  Util.findClassicTypeFormat Node.utf8_encode
                  Node.base64_decode v) Hv).
Defined.

Lemma encode_throws_witness :
  let v := VArray [Some VNull; Some (VString "%abc")] in
  let e := UnknownFormat "msg" in
  Sample.encode v = Throw e
  /\ (e = UnencodableValue
      \/ e = TypeError
      \/ exists s type,
          Util.findClassicTypeFormat s Sample.TYPES = (Some type, None)
          /\ e = UnknownFormat (t_type type)).
Proof.
  intros v e. split; [reflexivity|].
  exact (encode_throws Sample.TYPES Sample.generic Sample.UTF8_string
           Sample.boolean Sample.nil_format Util.findClassicTypeFormat
           Node.utf8_encode Node.base64_decode v e eq_refl).
Defined.

Lemma encode_fails_fast_witness :
  Sample.encode (VArray ([Some VNull; None] ++ Some VSymbol
                         :: [Some (VString "%abc")]))
  = Throw TypeError
  /\ Sample.encode (VObject ([("__proto__", VNull)] ++ ("b", VString "%abc")
                             :: [("c", VOther)]))
     = Throw (UnknownFormat "msg").
Proof.
  pose (thm := encode_fails_fast Sample.TYPES Sample.generic
                 Sample.UTF8_string Sample.boolean Sample.nil_format
                 Util.findClassicTypeFormat Node.utf8_encode
                 Node.base64_decode).
  split.
  - apply (proj1 thm [Some VNull; None] VSymbol [Some (VString "%abc")]
             TypeError); [|reflexivity].
    repeat apply Forall_cons; try apply Forall_nil;
      first [apply present_hole | apply present_element; exact I].
  - apply (proj2 thm [("__proto__", VNull)] "b" (VString "%abc")
             [("c", VOther)] (UnknownFormat "msg")); [|reflexivity].
    repeat apply Forall_cons; try apply Forall_nil. exact I.
Defined.

Lemma decode_fails_fast_witness :
  Sample.decode (VArray ([Some VNull; None] ++ Some (VBuffer [x06])
                         :: [Some (VBoolean true)]))
  = Throw MalformedTag
  /\ Sample.decode (VObject ([("__proto__", VNull)] ++ ("b", VBoolean true)
                             :: [("c", VBuffer [x06])]))
     = Throw UndecodableValue.
Proof.
  pose (thm := decode_fails_fast Sample.TYPES Sample.generic
                 Sample.UTF8_string Sample.boolean Sample.nil_format
                 Node.utf8_decode Node.base64_encode).
  split.
  - apply (proj1 thm [Some VNull; None] (VBuffer [x06]) [Some (VBoolean true)]
             MalformedTag); [|reflexivity].
    repeat apply Forall_cons; try apply Forall_nil;
      first [apply present_hole | apply present_element; exact I].
  - apply (proj2 thm [("__proto__", VNull)] "b" (VBoolean true)
             [("c", VBuffer [x06])] UndecodableValue); [|reflexivity].
    repeat apply Forall_cons; try apply Forall_nil. exact I.
Defined.

Lemma decode_array_object_witness :
  Sample.decode (VArray [Some VNull; None; Some (VBuffer [x06; x01; x01])])
  = Ok (VArray [Some VNull; None; Some (VBoolean true)])
  /\ no_proto_key [("a", VInteger 1); ("b", VBuffer [x06; x02])]
  /\ Sample.decode (VObject [("a", VInteger 1); ("b", VBuffer [x06; x02])])
     = Ok (VObject [("a", VInteger 1); ("b", VNull)]).
Proof.
  pose (thm := decode_array_object Sample.TYPES Sample.generic
                 Sample.UTF8_string Sample.boolean Sample.nil_format
                 Node.utf8_decode Node.base64_encode).
  assert (Hkeys : no_proto_key [("a", VInteger 1); ("b", VBuffer [x06; x02])])
    by (repeat apply Forall_cons; try apply Forall_nil; discriminate).
  split; [|split; [exact Hkeys|]].
  - apply (proj2 (proj1 thm _ _)).
    exists [Some VNull; None; Some (VBoolean true)]. split; [reflexivity|].
    repeat apply Forall2_cons; try apply Forall2_nil;
      first [reflexivity | exact I].
  - apply (proj2 (proj2 thm _ _ Hkeys)).
    exists [("a", VInteger 1); ("b", VNull)]. split; [reflexivity|].
    repeat apply Forall2_cons; try apply Forall2_nil; split; reflexivity.
Defined.

Lemma decode_output_decoded_witness :
  let v := VArray [Some (VBuffer [x06; x02]); None; Some (VInteger 1)] in
  let w := VArray [Some VNull; None; Some (VInteger 1)] in
  Sample.decode v = Ok w /\ decoded w.
Proof.
  intros v w. split; [reflexivity|].
  exact (decode_output_decoded Sample.TYPES Sample.generic Sample.UTF8_string
           Sample.boolean Sample.nil_format Node.utf8_decode
           Node.base64_encode v w eq_refl).
Defined.

Lemma decode_encode_buffer_witness :
  let d := [x06; x01; x01] in
  let w := VBoolean true in
  (x <- Sample.encode (VBuffer d) ;; Sample.decode x) = Ok w
  /\ (w = VNull \/ (exists b, w = VBoolean b) \/ (exists s, w = VString s)).
Proof.
  intros d w. split; [reflexivity|].
  exact (decode_encode_buffer Sample.TYPES Sample.generic Sample.UTF8_string
           Sample.boolean Sample.nil_format Util.findClassicTypeFormat
           Node.utf8_encode Node.utf8_decode Node.base64_decode
           Node.base64_encode d w eq_refl).
Defined.

Lemma decode_null_iff_witness :
  Sample.decode (VBuffer [x06; x02]) = Ok VNull.
Proof.
  exact (proj2 (decode_null_iff Sample.TYPES Sample.generic Sample.UTF8_string
                  Sample.boolean Sample.nil_format Node.utf8_decode
                  Node.base64_encode [x06; x02]) eq_refl).
Defined.

Lemma decode_boolean_iff_witness :
  Sample.decode (VBuffer [x06; x01; x01; x09; x09]) = Ok (VBoolean true).
Proof.
  exact (proj2 (decode_boolean_iff Sample.TYPES Sample.generic
                  Sample.UTF8_string Sample.boolean Sample.nil_format
                  Node.utf8_decode Node.base64_encode
                  [x06; x01; x01; x09; x09] true) eq_refl).
Defined.

Lemma decode_boolean_invalid_witness :
  let d := [x06; x01; x02] in
  firstn 2 d = BOOL_TF Sample.generic Sample.boolean
  /\ d <> NIL_TF Sample.generic Sample.nil_format
  /\ (forall b, firstn 3 d <> encoder_boolean Sample.generic Sample.boolean b)
  /\ Sample.decode (VBuffer d) = Throw InvalidBoolean.
Proof.
  intros d.
  assert (H2 : d <> NIL_TF Sample.generic Sample.nil_format) by discriminate.
  assert (H3 : forall b,
             firstn 3 d <> encoder_boolean Sample.generic Sample.boolean b)
    by (intros [|]; discriminate).
  refine (conj eq_refl (conj H2 (conj H3 _))).
  exact (decode_boolean_invalid Sample.TYPES Sample.generic
           Sample.UTF8_string Sample.boolean Sample.nil_format
           Node.utf8_decode Node.base64_encode d eq_refl H2 H3).
Defined.

Lemma decode_string_tag_witness :
  let d := [x06; x00; x68; x69] in
  firstn 2 d = STRING_TF Sample.generic Sample.UTF8_string
  /\ d <> NIL_TF Sample.generic Sample.nil_format
  /\ f_code Sample.UTF8_string <> f_code Sample.boolean
  /\ Sample.decode (VBuffer d) = Ok (VString "hi").
Proof.
  intros d.
  assert (H2 : d <> NIL_TF Sample.generic Sample.nil_format) by discriminate.
  assert (H3 : f_code Sample.UTF8_string <> f_code Sample.boolean)
    by discriminate.
  refine (conj eq_refl (conj H2 (conj H3 _))).
  exact (decode_string_tag Sample.TYPES Sample.generic Sample.UTF8_string
           Sample.boolean Sample.nil_format Node.utf8_decode
           Node.base64_encode d eq_refl H2 H3).
Defined.


Lemma encode_leaf_tagged_witness :
  (forall type,
      Util.findClassicTypeFormat "hi" Sample.TYPES <> (Some type, None))
  /\ exists d, Sample.encode (VString "hi") = Ok (VBuffer d)
               /\ 2 <= List.length d
               /\ Sample.decode (VBuffer d) <> Throw MalformedTag.
Proof.
  assert (H : forall type,
             Util.findClassicTypeFormat "hi" Sample.TYPES
             <> (Some type, None)) by (intros type; discriminate).
  split; [exact H|].
  exact (encode_leaf_tagged Sample.TYPES Sample.generic Sample.UTF8_string
           Sample.boolean Sample.nil_format Util.findClassicTypeFormat
           Node.utf8_encode Node.utf8_decode Node.base64_decode
           Node.base64_encode (VString "hi")
           (or_intror (or_intror (ex_intro _ "hi" (conj eq_refl H))))).
Defined.

Lemma encode_decode_primitive_witness :
  let d := [x06; x01; x00] in
  Sample.decode (VBuffer d) = Ok (VBoolean false)
  /\ List.length d <= 3
  /\ Sample.encode (VBoolean false) = Ok (VBuffer d).
Proof.
  intros d. refine (conj eq_refl (conj (le_n 3) _)).
  exact (encode_decode_primitive Sample.TYPES Sample.generic
           Sample.UTF8_string Sample.boolean Sample.nil_format
           Util.findClassicTypeFormat Node.utf8_encode Node.utf8_decode
           Node.base64_decode Node.base64_encode d (VBoolean false)
           eq_refl (le_n 3) (or_intror (ex_intro _ false eq_refl))).
Defined.
